(** * LibreCrawl: the crawl-state core

    A shallow embedding of [src/core/link_manager.py] (class [LinkManager])
    and of [src/core/sitemap_parser.py] (class [SitemapParser]), with the
    properties of the frontier, the link graph and the sitemap resolver
    that the specification states about them.

    Conventions of the embedding:
    - a Python [str] is a [string] whose characters are the code points
      below 256; [lower] and [strip] act on them as Python does;
    - a Python [int] is a [Z];
    - a [set] of strings is a [gset string], a [dict] keyed by strings a
      [gmap string _], a [list] or [deque] a [list];
    - the list objects stored in [source_pages] are mutated in place and
      handed out by [get_source_pages], so they live in an explicit store
      ([heap]) and the dictionary holds their addresses;
    - a call that can raise returns a [result]; a method that mutates the
      manager and can raise returns the outcome together with the state it
      leaves behind. *)

From Stdlib Require Import ZArith Ascii String.
From Equations Require Import Equations.
From stdpp Require Import gmap strings list pretty.

Local Open Scope Z_scope.

(** ** Exceptions and results *)

Inductive exn : Type :=
  | ValueError (msg : string)
  | OtherException (name : string).

Inductive result (A : Type) : Type :=
  | Ok (a : A)
  | Raise (e : exn).
Arguments Ok {A} a.
Arguments Raise {A} e.

Global Instance result_ret : MRet result := λ A a, Ok a.
Global Instance result_bind : MBind result := λ A B k r,
  match r with
  | Ok a => k a
  | Raise e => Raise e
  end.

Definition is_ok {A} (r : result A) : bool :=
  match r with Ok _ => true | Raise _ => false end.

(** ** Python strings *)

Module PyStr.

(** [c.lower()] for a code point below 256: the letters A-Z and the
    Latin-1 capitals 192-222 (but not the sign 215) move up by 32 *)
Definition char_lower (c : ascii) : ascii :=
  let n := nat_of_ascii c in
  if (((65 <=? n) && (n <=? 90))
      || ((192 <=? n) && (n <=? 222) && negb (n =? 215)))%nat
  then ascii_of_nat (n + 32) else c.

(** [s.lower()] *)
Fixpoint lower (s : string) : string :=
  match s with
  | EmptyString => EmptyString
  | String c r => String (char_lower c) (lower r)
  end.

(** the characters [str.strip()] removes: [c.isspace()] *)
Definition isspace (c : ascii) : bool :=
  let n := nat_of_ascii c in
  (((9 <=? n) && (n <=? 13)) || ((28 <=? n) && (n <=? 32))
   || (n =? 133) || (n =? 160))%nat.

Fixpoint lstrip_by (p : ascii → bool) (s : string) : string :=
  match s with
  | EmptyString => EmptyString
  | String c r => if p c then lstrip_by p r else s
  end.

Definition rstrip_by (p : ascii → bool) (s : string) : string :=
  String.rev (lstrip_by p (String.rev s)).

(** [s.strip()] *)
Definition strip (s : string) : string := rstrip_by isspace (lstrip_by isspace s).

(** [s.startswith(p)] *)
Definition startswith (s p : string) : bool := String.prefix p s.

(** [s.endswith(p)] *)
Definition endswith (s p : string) : bool :=
  String.prefix (String.rev p) (String.rev s).

(** [s[n:]] *)
Fixpoint drop (n : nat) (s : string) : string :=
  match n, s with
  | O, _ => s
  | S n, String _ r => drop n r
  | S _, EmptyString => EmptyString
  end.

(** [s[:n]] *)
Fixpoint take (n : nat) (s : string) : string :=
  match n, s with
  | S n, String c r => String c (take n r)
  | _, _ => EmptyString
  end.

(** [c in s] for a character [c] *)
Fixpoint has_char (c : ascii) (s : string) : bool :=
  match s with
  | EmptyString => false
  | String d r => if decide (c = d) then true else has_char c r
  end.

(** [sub in s] *)
Fixpoint contains (s sub : string) : bool :=
  String.prefix sub s ||
  match s with
  | EmptyString => false
  | String _ r => contains r sub
  end.

(** [s.split(c, 1)] when [c] occurs in [s]: the text before the first
    [c] and the text after it. *)
Fixpoint split1 (c : ascii) (s : string) : option (string * string) :=
  match s with
  | EmptyString => None
  | String d r =>
      if decide (c = d) then Some (EmptyString, r)
      else match split1 c r with
           | Some (a, b) => Some (String d a, b)
           | None => None
           end
  end.

(** [s.split(c)] *)
Fixpoint split (c : ascii) (s : string) : list string :=
  match s with
  | EmptyString => [EmptyString]
  | String d r =>
      if decide (c = d) then EmptyString :: split c r
      else match split c r with
           | w :: ws => String d w :: ws
           | [] => [String d EmptyString]
           end
  end.

(** [sep.join(l)] *)
Fixpoint join (sep : string) (l : list string) : string :=
  match l with
  | [] => EmptyString
  | [w] => w
  | w :: ws => w +:+ sep +:+ join sep ws
  end.

(** the prefix of [s] up to the first character satisfying [p], and the
    rest from that character on *)
Fixpoint break (p : ascii → bool) (s : string) : string * string :=
  match s with
  | EmptyString => (EmptyString, EmptyString)
  | String c r =>
      if p c then (EmptyString, s)
      else let '(a, b) := break p r in (String c a, b)
  end.

Fixpoint forallb (p : ascii → bool) (s : string) : bool :=
  match s with
  | EmptyString => true
  | String c r => p c && forallb p r
  end.

Fixpoint filter (p : ascii → bool) (s : string) : string :=
  match s with
  | EmptyString => EmptyString
  | String c r => if p c then String c (filter p r) else filter p r
  end.

(** truth value of a string: [bool(s)] *)
Definition nonempty (s : string) : bool :=
  match s with EmptyString => false | _ => true end.

End PyStr.

(** ** [urllib.parse]

    [link_manager.py] imports [urljoin] and [urlparse] from the Python
    standard library.  The manager is verified against the interface
    [UrlLib] below: any pair of functions that may raise.  [Urllib] is a
    model of the two functions after CPython 3.11's [Lib/urllib/parse.py],
    used to run the manager on concrete pages.  It leaves out the
    validation of a bracketed IP literal and the NFKC check of a non-ASCII
    host, where CPython can raise [ValueError] on hosts this model
    accepts. *)

Record ParseResult : Type := mkParseResult {
  scheme : string;
  netloc : string;
  path : string;
  params : string;
  query : string;
  fragment : string
}.

Class UrlLib : Type := {
  urljoin : string → string → result string;
  urlparse : string → result ParseResult
}.

Module Urllib.
Import PyStr.

Definition uses_relative : list string :=
  [""; "ftp"; "http"; "gopher"; "nntp"; "imap"; "wais"; "file"; "https";
   "shttp"; "mms"; "prospero"; "rtsp"; "rtspu"; "sftp"; "svn";
   "svn+ssh"; "ws"; "wss"].

Definition uses_netloc : list string :=
  [""; "ftp"; "http"; "gopher"; "nntp"; "telnet"; "imap"; "wais"; "file";
   "mms"; "https"; "shttp"; "snews"; "prospero"; "rtsp"; "rtspu"; "rsync";
   "svn"; "svn+ssh"; "sftp"; "nfs"; "git"; "git+ssh"; "ws"; "wss"].

Definition uses_params : list string :=
  [""; "ftp"; "hdl"; "prospero"; "http"; "imap"; "https"; "shttp"; "rtsp";
   "rtspu"; "sip"; "sips"; "mms"; "sftp"; "tel"].

Definition is_alpha (c : ascii) : bool :=
  let n := nat_of_ascii c in
  (((65 <=? n) && (n <=? 90)) || ((97 <=? n) && (n <=? 122)))%nat.

Definition is_digit (c : ascii) : bool :=
  let n := nat_of_ascii c in ((48 <=? n) && (n <=? 57))%nat.

(** [scheme_chars]: letters, digits and [+-.] *)
Definition scheme_char (c : ascii) : bool :=
  is_alpha c || is_digit c || bool_decide (c ∈ ["+"; "-"; "."]%char).

(** [_WHATWG_C0_CONTROL_OR_SPACE] *)
Definition c0_control_or_space (c : ascii) : bool :=
  (nat_of_ascii c <=? 32)%nat.

(** [_UNSAFE_URL_BYTES_TO_REMOVE]: tab, carriage return, line feed *)
Definition unsafe_byte (c : ascii) : bool :=
  bool_decide (c ∈ ["009"; "013"; "010"]%char).

Definition netloc_delim (c : ascii) : bool :=
  bool_decide (c ∈ ["/"; "?"; "#"]%char).

(** [_splitnetloc(url, 2)] *)
Definition _splitnetloc (url : string) : string * string :=
  break netloc_delim (drop 2 url).

Definition first_is_alpha (s : string) : bool :=
  match s with
  | String c _ => is_alpha c
  | EmptyString => false
  end.

(** [urlsplit(url, scheme)]: scheme, netloc, path, query, fragment *)
Definition urlsplit (url scheme : string)
    : result (string * string * string * string * string) :=
  let url := lstrip_by c0_control_or_space url in
  let scheme := rstrip_by c0_control_or_space
                  (lstrip_by c0_control_or_space scheme) in
  let url := filter (λ c, negb (unsafe_byte c)) url in
  let scheme := filter (λ c, negb (unsafe_byte c)) scheme in
  let '(scheme, url) :=
    match split1 ":" url with
    | Some (pre, rest) =>
        if nonempty pre && first_is_alpha pre && forallb scheme_char pre
        then (lower pre, rest) else (scheme, url)
    | None => (scheme, url)
    end in
  let split_rest (netloc url : string) :=
    let '(url, fragment) :=
      match split1 "#" url with
      | Some (u, f) => (u, f)
      | None => (url, EmptyString)
      end in
    let '(url, query) :=
      match split1 "?" url with
      | Some (u, q) => (u, q)
      | None => (url, EmptyString)
      end in
    Ok (scheme, netloc, url, query, fragment) in
  if startswith url "//" then
    let '(netloc, url) := _splitnetloc url in
    if (has_char "[" netloc && negb (has_char "]" netloc))
       || (has_char "]" netloc && negb (has_char "[" netloc))
    then Raise (ValueError "Invalid IPv6 URL")
    else split_rest netloc url
  else split_rest EmptyString url.

(** the text before the last ["/"] of [s], and the text from it on *)
Definition rbreak_slash (s : string) : string * string :=
  let '(a, b) := break (λ c, bool_decide (c = "/"%char)) (String.rev s) in
  (String.rev (drop 1 b), String "/" (String.rev a)).

(** [_splitparams(url)] *)
Definition _splitparams (url : string) : string * string :=
  if has_char "/" url then
    let '(front, last) := rbreak_slash url in
    match split1 ";" last with
    | Some (a, b) => (front +:+ a, b)
    | None => (url, EmptyString)
    end
  else
    match split1 ";" url with
    | Some (a, b) => (a, b)
    | None => (url, EmptyString)
    end.

(** [urlparse(url, scheme)] *)
Definition urlparse_with (url scheme : string) : result ParseResult :=
  '(scheme, netloc, url, query, fragment) ← urlsplit url scheme;
  let '(url, params) :=
    if bool_decide (scheme ∈ uses_params) && has_char ";" url
    then _splitparams url else (url, EmptyString) in
  Ok (mkParseResult scheme netloc url params query fragment).

(** [urlunsplit((scheme, netloc, url, query, fragment))] *)
Definition urlunsplit (scheme netloc url query fragment : string) : string :=
  let url :=
    if nonempty netloc
       || (nonempty scheme && bool_decide (scheme ∈ uses_netloc)
           && negb (startswith url "//"))
    then "//" +:+ netloc +:+
         (if nonempty url && negb (startswith url "/")
          then "/" +:+ url else url)
    else url in
  let url := if nonempty scheme then scheme +:+ ":" +:+ url else url in
  let url := if nonempty query then url +:+ "?" +:+ query else url in
  if nonempty fragment then url +:+ "#" +:+ fragment else url.

(** [urlunparse((scheme, netloc, url, params, query, fragment))] *)
Definition urlunparse (p : ParseResult) : string :=
  let url := if nonempty (params p) then path p +:+ ";" +:+ params p
             else path p in
  urlunsplit (scheme p) (netloc p) url (query p) (fragment p).

(** the loop of [urljoin] that resolves [.] and [..] segments *)
Fixpoint resolve (segments resolved_path : list string) : list string :=
  match segments with
  | [] => resolved_path
  | seg :: rest =>
      if decide (seg = "..") then resolve rest (removelast resolved_path)
      else if decide (seg = ".") then resolve rest resolved_path
      else resolve rest (resolved_path ++ [seg])
  end.

(** [segments[1:-1] = filter(None, segments[1:-1])] *)
Definition filter_inner (segments : list string) : list string :=
  match segments with
  | [] => []
  | [a] => [a]
  | a :: rest =>
      a :: List.filter nonempty (removelast rest) ++ [List.last rest ""]
  end.

(** [urljoin(base, url)] *)
Definition urljoin_ (base url : string) : result string :=
  if negb (nonempty base) then Ok url
  else if negb (nonempty url) then Ok base
  else
    b ← urlparse_with base "";
    u ← urlparse_with url (scheme b);
    if negb (bool_decide (scheme u = scheme b))
       || negb (bool_decide (scheme u ∈ uses_relative))
    then Ok url
    else if bool_decide (scheme u ∈ uses_netloc) && nonempty (netloc u)
    then Ok (urlunparse u)
    else
      let netloc' := if bool_decide (scheme u ∈ uses_netloc)
                     then netloc b else netloc u in
      if negb (nonempty (path u)) && negb (nonempty (params u)) then
        let query' := if nonempty (query u) then query u else query b in
        Ok (urlunparse (mkParseResult (scheme u) netloc' (path b)
                          (params b) query' (fragment u)))
      else
        let base_parts := split "/" (path b) in
        let base_parts :=
          if nonempty (List.last base_parts "")
          then removelast base_parts else base_parts in
        let segments :=
          if startswith (path u) "/" then split "/" (path u)
          else filter_inner (base_parts ++ split "/" (path u)) in
        let resolved_path := resolve segments [] in
        let resolved_path :=
          if bool_decide (List.last segments "" ∈ ["."; ".."])
          then resolved_path ++ [""] else resolved_path in
        let joined := join "/" resolved_path in
        Ok (urlunparse (mkParseResult (scheme u) netloc'
                          (if nonempty joined then joined else "/")
                          (params u) (query u) (fragment u))).

Definition urlparse_ (url : string) : result ParseResult :=
  urlparse_with url "".

End Urllib.

(** The standard library as an instance of the interface. *)
Definition cpython : UrlLib :=
  {| urljoin := Urllib.urljoin_; urlparse := Urllib.urlparse_ |}.

(** ** Values the manager stores *)

(** The value of [a and b and a == b] on two strings: one of the strings
    when it is empty, the comparison otherwise. *)
Inductive pyval : Type :=
  | PStr (s : string)
  | PBool (b : bool).

Definition truthy (v : pyval) : bool :=
  match v with
  | PStr s => PyStr.nonempty s
  | PBool b => b
  end.

Global Instance pyval_eq_dec : EqDecision pyval.
Proof. solve_decision. Defined.

(** One entry of [crawl_results]: a dict with the keys ['url'] and
    ['status_code']. *)
Module CrawlResult.
Record t : Type := mk { url : string; status_code : Z }.
End CrawlResult.

(** The dict [link_data] built by [collect_all_links]. *)
Module LinkData.
Record t : Type := mk {
  source_url : string;
  target_url : string;
  anchor_text : string;
  is_internal : pyval;
  target_domain : string;
  target_status : option Z;
  placement : string;
  link_path : string
}.

Definition set_target_status (s : option Z) (d : t) : t :=
  mk (source_url d) (target_url d) (anchor_text d) (is_internal d)
     (target_domain d) s (placement d) (link_path d).

Global Instance eq_dec : EqDecision t.
Proof. solve_decision. Defined.
End LinkData.

(** ** The page: what BeautifulSoup hands to the manager

    An element of the node tree, as far as the manager looks at it: its
    tag name, its [id] and [class] attributes, and, for [_get_dom_path],
    the children of its parent that carry its (lower-cased) tag name:
    how many there are and where the element is found among them by
    [list.index] ([None] when it is not found). *)
Record Element : Type := mkElement {
  tag_name : string;
  tag_id : option string;
  tag_class : list string;
  siblings_len : nat;
  siblings_index : option nat
}.

(** An [<a href=...>] element found by [soup.find_all('a', href=True)]:
    the attribute, the text, the element and its ancestors from the parent
    up to the root of the tree. *)
Record Link : Type := mkLink {
  href : string;
  get_text : string;
  element : Element;
  parents : list Element
}.

(** ** LinkManager *)

Record LinkManager : Type := mkLinkManager {
  base_domain : option string;
  visited_urls : gset string;
  discovered_urls : list (string * Z);
  all_discovered_urls : gset string;
  all_links : list LinkData.t;
  links_set : gset string;
  (** target_url -> address of the list of source_urls *)
  source_pages : gmap string nat;
  (** the list objects, by address *)
  heap : list (list string)
}.

Definition set_frontier (v : gset string) (q : list (string * Z))
    (d : gset string) (st : LinkManager) : LinkManager :=
  mkLinkManager (base_domain st) v q d (all_links st) (links_set st)
    (source_pages st) (heap st).

Definition set_links (ls : list LinkData.t) (ks : gset string)
    (st : LinkManager) : LinkManager :=
  mkLinkManager (base_domain st) (visited_urls st) (discovered_urls st)
    (all_discovered_urls st) ls ks (source_pages st) (heap st).

Definition set_sources (sp : gmap string nat) (h : list (list string))
    (st : LinkManager) : LinkManager :=
  mkLinkManager (base_domain st) (visited_urls st) (discovered_urls st)
    (all_discovered_urls st) (all_links st) (links_set st) sp h.

(** [LinkManager(base_domain)], created in a store [h] *)
Definition __init__ (base_domain : option string) (h : list (list string))
    : LinkManager :=
  mkLinkManager base_domain ∅ [] ∅ [] ∅ ∅ h.

(** The list of sources recorded for a target: what [source_pages[url]]
    holds, read through the store. *)
Definition sources_of (st : LinkManager) (url : string) : list string :=
  match source_pages st !! url with
  | Some l => default [] (heap st !! l)
  | None => []
  end.

Section Manager.
Context {lib : UrlLib}.
Import PyStr.

(** *** The sections that run under a lock *)

(** Lines 43-46 and 121-124, under [urls_lock]. *)
Definition track_source (clean_url current_url : string)
    (st : LinkManager) : LinkManager :=
  let st :=
    match source_pages st !! clean_url with
    | Some _ => st
    | None => set_sources (<[clean_url := length (heap st)]> (source_pages st))
                          (heap st ++ [[]]) st
    end in
  match source_pages st !! clean_url with
  | Some l =>
      match heap st !! l with
      | Some srcs =>
          if decide (current_url ∈ srcs) then st
          else set_sources (source_pages st)
                           (<[l := srcs ++ [current_url]]> (heap st)) st
      | None => st
      end
  | None => st
  end.

(** Lines 48-55, under [urls_lock]. *)
Definition enqueue_if_new (clean_url current_url : string) (depth : Z)
    (should_crawl_callback : string → Z → bool)
    (st : LinkManager) : LinkManager :=
  if decide ((clean_url ∉ visited_urls st)
             ∧ (clean_url ∉ all_discovered_urls st)
             ∧ clean_url ≠ current_url) then
    if should_crawl_callback clean_url depth then
      set_frontier (visited_urls st)
                   (discovered_urls st ++ [(clean_url, depth)])
                   ({[clean_url]} ∪ all_discovered_urls st) st
    else st
  else st.

(** [f"{link_data['source_url']}|{link_data['target_url']}"] *)
Definition link_key (d : LinkData.t) : string :=
  LinkData.source_url d +:+ "|" +:+ LinkData.target_url d.

(** Lines 127-132, under [links_lock]. *)
Definition record_link (link_data : LinkData.t) (st : LinkManager)
    : LinkManager :=
  let link_key := link_key link_data in
  if decide (link_key ∉ links_set st) then
    set_links (all_links st ++ [link_data]) ({[link_key]} ∪ links_set st) st
  else st.

(** *** URL normalization: lines 32-38 and 75-81 *)

(** [f"{parsed.scheme}://{parsed.netloc}{parsed.path}"], with
    [f"?{parsed.query}"] appended when the query is not empty *)
Definition clean_url_of (parsed : ParseResult) : string :=
  let clean_url := scheme parsed +:+ "://" +:+ netloc parsed +:+ path parsed in
  if nonempty (query parsed) then (clean_url +:+ "?" +:+ query parsed)
  else clean_url.

(** [urlparse(urljoin(page_url, href))] *)
Definition resolve_href (page_url href : string) : result ParseResult :=
  absolute_url ← urljoin page_url href;
  urlparse absolute_url.

(** the test of line 28 *)
Definition not_crawlable (href : string) : bool :=
  negb (nonempty href) || startswith href "#"
  || startswith href "mailto:" || startswith href "tel:".

(** *** [extract_links] *)

(** One iteration of the loop of [extract_links].  An exception of
    [urljoin] or [urlparse] leaves the loop and the method. *)
Definition extract_link (link : Link) (current_url : string) (depth : Z)
    (should_crawl_callback : string → Z → bool) (st : LinkManager)
    : result unit * LinkManager :=
  let href := strip (href link) in
  if not_crawlable href then (Ok (), st)
  else
    match resolve_href current_url href with
    | Raise e => (Raise e, st)
    | Ok parsed =>
        let clean_url := clean_url_of parsed in
        (Ok (), enqueue_if_new clean_url current_url depth should_crawl_callback
                  (track_source clean_url current_url st))
    end.

Fixpoint extract_links (links : list Link) (current_url : string)
    (depth : Z) (should_crawl_callback : string → Z → bool)
    (st : LinkManager) : result unit * LinkManager :=
  match links with
  | [] => (Ok (), st)
  | link :: links =>
      match extract_link link current_url depth should_crawl_callback st with
      | (Ok _, st) =>
          extract_links links current_url depth should_crawl_callback st
      | (Raise e, st) => (Raise e, st)
      end
  end.

End Manager.

Section PlacementAndPath.
Import PyStr.

(** *** [_detect_link_placement] *)

(** The loop over the ancestors, from [link_element.parent] upwards. *)
Fixpoint detect_placement_from (ancestors : list Element) : string :=
  match ancestors with
  | [] => "body"
  | current :: up =>
      if negb (nonempty (tag_name current)) then "body"
      else if decide (tag_name current = "footer") then "footer"
      else
        let classes := tag_class current in
        let element_id := default "" (tag_id current) in
        let classes_str :=
          match classes with
          | [] => ""
          | _ => lower (join " " classes)
          end in
        if contains classes_str "footer"
           || contains (lower element_id) "footer" then "footer"
        else if bool_decide (tag_name current ∈ ["nav"; "header"])
        then "navigation"
        else if existsb (λ keyword, contains classes_str keyword
                                    || contains (lower element_id) keyword)
                        ["nav"; "menu"; "header"]
        then "navigation"
        else detect_placement_from up
  end.

Definition _detect_link_placement (link_element : Link) : string :=
  detect_placement_from (parents link_element).

(** *** [_get_dom_path] *)

(** The loop of [_get_dom_path] over the element and its ancestors;
    [path_parts] is the list built so far. *)
Fixpoint dom_path_from (chain : list Element) (path_parts : list string)
    : list string :=
  match chain with
  | [] => path_parts
  | current :: up =>
      if negb (nonempty (tag_name current)) then path_parts
      else
        let tag := lower (tag_name current) in
        if decide (tag = "html") then path_parts
        else
          let indexed :=
            match up with
            | [] => tag
            | _ :: _ =>
                if (1 <? siblings_len current)%nat then
                  match siblings_index current with
                  | Some index => tag +:+ "[" +:+ pretty (S index) +:+ "]"
                  | None => tag
                  end
                else tag
            end in
          let segment :=
            match tag_id current with
            | Some element_id =>
                if nonempty element_id
                then tag +:+ "[@id='" +:+ element_id +:+ "']"
                else indexed
            | None => indexed
            end in
          let path_parts := segment :: path_parts in
          if decide (tag = "body") then path_parts
          else dom_path_from up path_parts
  end.

Definition _get_dom_path (link_element : Link) : string :=
  if negb (nonempty (tag_name (element link_element))) then ""
  else
    match dom_path_from (element link_element :: parents link_element) [] with
    | [] => ""
    | path_parts => "//" +:+ join "/" path_parts
    end.

End PlacementAndPath.

Section Methods.
Context {lib : UrlLib}.
Import PyStr.

(** *** Domain classification: lines 84-93 and 223-232 *)

(** [d[4:] if d.startswith('www.') else d] *)
Definition strip_www (domain : string) : string :=
  if startswith domain "www." then drop 4 domain else domain.

(** [self.base_domain.lower() if self.base_domain else ''] *)
Definition base_domain_lower (base_domain : option string) : string :=
  match base_domain with
  | Some d => if nonempty d then lower d else ""
  | None => ""
  end.

(** [a and b and a == b] *)
Definition and_and_eq (a b : string) : pyval :=
  if negb (nonempty a) then PStr a
  else if negb (nonempty b) then PStr b
  else PBool (bool_decide (a = b)).

Definition classify (host : string) (base_domain : option string) : pyval :=
  let url_domain := lower host in
  let base_domain := base_domain_lower base_domain in
  let url_domain_clean := strip_www url_domain in
  let base_domain_clean := strip_www base_domain in
  and_and_eq url_domain_clean base_domain_clean.

(** [is_internal(url)] *)
Definition is_internal (url : string) (st : LinkManager) : result pyval :=
  parsed_url ← urlparse url;
  Ok (classify (netloc parsed_url) (base_domain st)).

(** *** [collect_all_links] *)

(** the loop of lines 96-100: the first result for the URL decides *)
Fixpoint find_status (clean_url : string)
    (crawl_results : list CrawlResult.t) : option Z :=
  match crawl_results with
  | [] => None
  | result :: rest =>
      if decide (CrawlResult.url result = clean_url)
      then Some (CrawlResult.status_code result)
      else find_status clean_url rest
  end.

(** the dict of lines 108-117 *)
Definition make_link_data (link : Link) (source_url : string)
    (parsed_target : ParseResult) (crawl_results : list CrawlResult.t)
    (base_domain : option string) : LinkData.t :=
  let anchor_text := take 100 (strip (get_text link)) in
  let clean_url := clean_url_of parsed_target in
  {| LinkData.source_url := source_url;
     LinkData.target_url := clean_url;
     LinkData.anchor_text :=
       if nonempty anchor_text then anchor_text else "(no text)";
     LinkData.is_internal := classify (netloc parsed_target) base_domain;
     LinkData.target_domain := netloc parsed_target;
     LinkData.target_status := find_status clean_url crawl_results;
     LinkData.placement := _detect_link_placement link;
     LinkData.link_path := _get_dom_path link |}.

(** One iteration of the loop of [collect_all_links].  The [try] block
    turns an exception of [urljoin] or [urlparse] into [continue]. *)
Definition collect_link (link : Link) (source_url : string)
    (crawl_results : list CrawlResult.t) (st : LinkManager) : LinkManager :=
  let href := strip (href link) in
  if negb (nonempty href) || startswith href "#" then st
  else if startswith href "mailto:" || startswith href "tel:" then st
  else
    match resolve_href source_url href with
    | Raise _ => st
    | Ok parsed_target =>
        let link_data :=
          make_link_data link source_url parsed_target crawl_results
                         (base_domain st) in
        record_link link_data
          (track_source (LinkData.target_url link_data) source_url st)
    end.

Definition collect_all_links (links : list Link) (source_url : string)
    (crawl_results : list CrawlResult.t) (st : LinkManager) : LinkManager :=
  foldl (λ st link, collect_link link source_url crawl_results st) st links.

(** *** The frontier *)

Definition add_url (url : string) (depth : Z) (st : LinkManager)
    : LinkManager :=
  if decide ((url ∉ all_discovered_urls st) ∧ (url ∉ visited_urls st)) then
    set_frontier (visited_urls st) (discovered_urls st ++ [(url, depth)])
                 ({[url]} ∪ all_discovered_urls st) st
  else st.

Definition mark_visited (url : string) (st : LinkManager) : LinkManager :=
  set_frontier ({[url]} ∪ visited_urls st) (discovered_urls st)
               (all_discovered_urls st) st.

Definition get_next_url (st : LinkManager)
    : option (string * Z) * LinkManager :=
  match discovered_urls st with
  | next :: rest =>
      (Some next,
       set_frontier (visited_urls st) rest (all_discovered_urls st) st)
  | [] => (None, st)
  end.

Record Stats : Type := mkStats {
  discovered : nat;
  visited : nat;
  pending : nat
}.

Definition get_stats (st : LinkManager) : Stats :=
  {| discovered := size (all_discovered_urls st);
     visited := size (visited_urls st);
     pending := length (discovered_urls st) |}.

(** *** The link graph *)

(** [{result['url']: result['status_code'] for result in crawl_results}]:
    a later result for the same URL replaces an earlier one *)
Definition status_lookup (crawl_results : list CrawlResult.t)
    : gmap string Z :=
  foldl (λ m result,
           <[CrawlResult.url result := CrawlResult.status_code result]> m)
        ∅ crawl_results.

Definition update_link (lookup : gmap string Z) (link : LinkData.t)
    : LinkData.t :=
  match lookup !! LinkData.target_url link with
  | Some status => LinkData.set_target_status (Some status) link
  | None => link
  end.

Definition update_link_statuses (crawl_results : list CrawlResult.t)
    (st : LinkManager) : LinkManager :=
  let status_lookup := status_lookup crawl_results in
  set_links (update_link status_lookup <$> all_links st) (links_set st) st.

(** [self.source_pages.get(url, []).copy()]: the copy is a new list
    object, and the method returns its address.  (The default [[]] is a
    temporary that nothing refers to once the copy is made; it gets no
    address here.) *)
Definition get_source_pages (url : string) (st : LinkManager)
    : nat * LinkManager :=
  (length (heap st),
   set_sources (source_pages st) (heap st ++ [sources_of st url]) st).

(** [reset] takes the two locks one after the other. *)
Definition reset_urls (st : LinkManager) : LinkManager :=
  set_sources ∅ (heap st) (set_frontier ∅ [] ∅ st).

Definition reset_links (st : LinkManager) : LinkManager :=
  set_links [] ∅ st.

Definition reset (st : LinkManager) : LinkManager :=
  reset_links (reset_urls st).

End Methods.

(** ** Atomic steps

    The workers call the manager concurrently; every access to its state
    happens in a section that holds [urls_lock] or [links_lock].  An
    execution of the manager is therefore a sequence of such sections, in
    the order the locks were granted.  [action] names them, with the values
    the calling thread computed before it took the lock. *)

Inductive action : Type :=
  (** lines 41-55 of [extract_links], for one link *)
  | Extract (clean_url current_url : string) (depth : Z)
            (should_crawl_callback : string → Z → bool)
  (** lines 120-124 of [collect_all_links] *)
  | Track (clean_url source_url : string)
  (** lines 127-132 of [collect_all_links] *)
  | RecordLink (link_data : LinkData.t)
  | AddUrl (url : string) (depth : Z)
  | MarkVisited (url : string)
  | GetNextUrl
  | UpdateLinkStatuses (crawl_results : list CrawlResult.t)
  | GetSourcePages (url : string)
  (** the two halves of [reset] *)
  | ResetUrls
  | ResetLinks.

Definition step (a : action) (st : LinkManager) : LinkManager :=
  match a with
  | Extract clean_url current_url depth cb =>
      enqueue_if_new clean_url current_url depth cb
        (track_source clean_url current_url st)
  | Track clean_url source_url => track_source clean_url source_url st
  | RecordLink link_data => record_link link_data st
  | AddUrl url depth => add_url url depth st
  | MarkVisited url => mark_visited url st
  | GetNextUrl => (get_next_url st).2
  | UpdateLinkStatuses crawl_results => update_link_statuses crawl_results st
  | GetSourcePages url => (get_source_pages url st).2
  | ResetUrls => reset_urls st
  | ResetLinks => reset_links st
  end.

Definition run (acts : list action) (st : LinkManager) : LinkManager :=
  foldl (λ st a, step a st) st acts.

Definition is_reset_urls (a : action) : bool :=
  match a with ResetUrls => true | _ => false end.

(** No [reset] takes place during [acts]. *)
Definition no_reset (acts : list action) : Prop :=
  Forall (λ a, is_reset_urls a = false) acts.

(** The entries a step appends to the pending queue: what the queue holds
    after the step beyond its length before. *)
Definition appended (a : action) (st : LinkManager) : list (string * Z) :=
  drop (length (discovered_urls st)) (discovered_urls (step a st)).

(** All entries appended to the pending queue during an execution. *)
Fixpoint enqueued (acts : list action) (st : LinkManager)
    : list (string * Z) :=
  match acts with
  | [] => []
  | a :: acts => appended a st ++ enqueued acts (step a st)
  end.

(** The sections of the two page methods, in program order. *)
Section Traces.
Context {lib : UrlLib}.

Fixpoint extract_trace (links : list Link) (current_url : string)
    (depth : Z) (cb : string → Z → bool) : list action :=
  match links with
  | [] => []
  | link :: links =>
      let href := PyStr.strip (href link) in
      if not_crawlable href
      then extract_trace links current_url depth cb
      else
        match resolve_href current_url href with
        | Raise _ => []
        | Ok parsed =>
            Extract (clean_url_of parsed) current_url depth cb
            :: extract_trace links current_url depth cb
        end
  end.

Fixpoint collect_trace (links : list Link) (source_url : string)
    (crawl_results : list CrawlResult.t) (base_domain : option string)
    : list action :=
  match links with
  | [] => []
  | link :: links =>
      let href := PyStr.strip (href link) in
      let rest := collect_trace links source_url crawl_results base_domain in
      if not_crawlable href then rest
      else
        match resolve_href source_url href with
        | Raise _ => rest
        | Ok parsed =>
            Track (clean_url_of parsed) source_url
            :: RecordLink (make_link_data link source_url parsed
                             crawl_results base_domain)
            :: rest
        end
  end.
End Traces.

(** ** SitemapParser

    The parser reaches the network through [self.session] and, when one is
    configured, [self.js_renderer]; it decompresses with [gzip] and parses
    with [xml.etree.ElementTree].  These are the parameters of the model.
    They are functions of the URL or of the content: a sitemap answers
    the same way each time it is asked for during one call.
    A document is kept as the parser reads it after the namespace prefixes
    are removed: for each [<sitemap>] and each [<url>] element found by
    [findall], the text of its [<loc>] child ([None] when there is no such
    child or it has no text). *)

Module Sitemap.

Record Response : Type := mkResponse {
  status_code : Z;
  content : string
}.

(** the dict returned by [render_url]: [.get('status_code')] and
    [.get('html', '')] *)
Record JsResult : Type := mkJsResult {
  js_status_code : option Z;
  html : string
}.

Record Document : Type := mkDocument {
  sitemaps : list (option string);
  urls : list (option string)
}.

(** What one call leaves behind: the list it returns and the lines
    ["Parsing sitemap: ..."] it printed, one for each sitemap it set out
    to fetch. *)
Record Run : Type := mkRun {
  returned : list string;
  parsing : list string
}.

Section Parser.
(** [self.session.get(url, timeout=self.timeout)] *)
Variable session_get : string → result Response.
(** [asyncio.run(self.js_renderer.render_url(url))]; the result is
    [None] when it is not a non-empty dict *)
Variable js_renderer : option (string → result (option JsResult)).
(** [gzip.decompress] *)
Variable gzip_decompress : string → result string.
(** [ET.fromstring] *)
Variable fromstring : string → result Document.

(** Lines 97-102, 105-110 and 113-119: the plain request.  [None] stands
    for the early [return []] on a status other than 200. *)
Definition plain_fetch (sitemap_url : string) : result (option string) :=
  response ← session_get sitemap_url;
  if decide (status_code response = 200) then Ok (Some (content response))
  else Ok None.

(** Lines 87-119.  Whatever goes wrong with the renderer, the request
    is made through the session. *)
Definition fetch (sitemap_url : string) : result (option string) :=
  match js_renderer with
  | Some render_url =>
      match render_url sitemap_url with
      | Ok (Some js_result) =>
          if decide (js_status_code js_result = Some 200)
          then Ok (Some (html js_result))
          else plain_fetch sitemap_url
      | Ok None => plain_fetch sitemap_url
      | Raise _ => plain_fetch sitemap_url
      end
  | None => plain_fetch sitemap_url
  end.

(** Lines 122-126 *)
Definition decompress (sitemap_url content : string) : string :=
  if PyStr.endswith sitemap_url ".gz" then
    match gzip_decompress content with
    | Ok content => content
    | Raise _ => content
    end
  else content.

(** Lines 87-133: fetch, decompress, parse *)
Definition load (sitemap_url : string) : result (option Document) :=
  fetched ← fetch sitemap_url;
  match fetched with
  | None => Ok None
  | Some content =>
      root ← fromstring (decompress sitemap_url content);
      Ok (Some root)
  end.

(** [loc_elem.text.strip()] for the entries that pass
    [loc_elem is not None and loc_elem.text] *)
Definition loc_texts (entries : list (option string)) : list string :=
  omap (λ entry,
          match entry with
          | Some text =>
              if PyStr.nonempty text then Some (PyStr.strip text) else None
          | None => None
          end) entries.

(** [_parse_sitemap(sitemap_url, depth, max_depth)].  The [except] of
    lines 167-171 turns every exception of [load] into [return []]. *)
Equations? parse_sitemap_run (sitemap_url : string) (depth max_depth : Z)
    : Run by wf (Z.to_nat (max_depth - depth + 1)) lt :=
parse_sitemap_run sitemap_url depth max_depth with decide (depth > max_depth) := {
  | left _ => mkRun [] [];
  | right _ =>
      match load sitemap_url with
      | Raise _ => mkRun [] [sitemap_url]
      | Ok None => mkRun [] [sitemap_url]
      | Ok (Some root) =>
          let nested :=
            (λ nested_url,
               parse_sitemap_run nested_url (depth + 1) max_depth)
            <$> loc_texts (sitemaps root) in
          mkRun (concat (returned <$> nested) ++ loc_texts (urls root))
                (sitemap_url :: concat (parsing <$> nested))
      end
  }.
Proof. lia. Qed.


End Parser.
End Sitemap.

(** ** Notions used in the statements *)

(** Lines 45-46: [if s not in srcs: srcs.append(s)], on the value of the
    list. *)
Definition observe (srcs : list string) (s : string) : list string :=
  if decide (s ∈ srcs) then srcs else srcs ++ [s].

(** The source pages that an execution reports for the target [url], in
    the order of the steps. *)
Definition observations (url : string) (acts : list action) : list string :=
  omap (λ a,
          match a with
          | Extract clean_url source_url _ _ | Track clean_url source_url =>
              if decide (clean_url = url) then Some source_url else None
          | _ => None
          end) acts.

(** The distinct elements of a list in the order of their first
    occurrence. *)
Fixpoint first_seen (l : list string) : list string :=
  match l with
  | [] => []
  | x :: l => x :: filter (λ y, y ≠ x) (first_seen l)
  end.

(** The store is well formed for the manager: the addresses in
    [source_pages] are allocated, and no two targets share a list. *)
Definition store_ok (st : LinkManager) : Prop :=
  ∀ u l, source_pages st !! u = Some l →
         (l < length (heap st))%nat
         ∧ ∀ u', source_pages st !! u' = Some l → u' = u.

(** The list at address [l] is not one of the manager's. *)
Definition outside (l : nat) (st : LinkManager) : Prop :=
  (l < length (heap st))%nat ∧ ∀ u, source_pages st !! u ≠ Some l.

(** The identity of an edge. *)
Definition endpoints (d : LinkData.t) : string * string :=
  (LinkData.source_url d, LinkData.target_url d).

(** The key of every recorded edge is in [links_set], and no two recorded
    edges have the same endpoints. *)
Definition links_ok (st : LinkManager) : Prop :=
  (∀ d, d ∈ all_links st → link_key d ∈ links_set st)
  ∧ NoDup (endpoints <$> all_links st).

(** The status that [status_lookup] holds for a target: that of the last
    result with this URL. *)
Definition last_status (target_url : string)
    (crawl_results : list CrawlResult.t) : option Z :=
  CrawlResult.status_code
    <$> last (filter (λ r, CrawlResult.url r = target_url) crawl_results).

(** The hrefs that are not links to crawl. *)
Definition rejected (href : string) : Prop :=
  href = "" ∨ PyStr.startswith href "#" = true
  ∨ PyStr.startswith href "mailto:" = true
  ∨ PyStr.startswith href "tel:" = true.

(** ** Sample pages *)

(** [<html><body><a href=...>text</a></body></html>]: a link that is the
    only [<a>] child of [<body>].  (In a list of such links each carries
    the sibling data of a page of its own; they matter to [link_path]
    only.) *)
Definition anchor (href text : string) : Link :=
  {| href := href;
     get_text := text;
     element := mkElement "a" None [] 1 (Some 0%nat);
     parents := [mkElement "body" None [] 1 (Some 0%nat);
                 mkElement "html" None [] 1 (Some 0%nat);
                 mkElement "[document]" None [] 0 None] |}.

(** The [<a>] element number [index] (from 0) among the [siblings]
    elements [<a>] that are the children of [<body>]. *)
Definition anchor_among (href text : string) (siblings index : nat) : Link :=
  {| href := href;
     get_text := text;
     element := mkElement "a" None [] siblings (Some index);
     parents := [mkElement "body" None [] 1 (Some 0%nat);
                 mkElement "html" None [] 1 (Some 0%nat);
                 mkElement "[document]" None [] 0 None] |}.

(** A manager that has visited [https://a.test/p]. *)
Definition visited_p : LinkManager :=
  mark_visited "https://a.test/p"
    (get_next_url (add_url "https://a.test/p" 0 (__init__ (Some "a.test") []))).2.

(** A sitemap index at [https://a.test/sitemap.xml] that lists itself and
    one page. *)
Definition cyclic_session (url : string) : result Sitemap.Response :=
  if decide (url = "https://a.test/sitemap.xml")
  then Ok (Sitemap.mkResponse 200 "<sitemapindex/>")
  else Raise (OtherException "ConnectionError").

Definition cyclic_fromstring (content : string) : result Sitemap.Document :=
  Ok (Sitemap.mkDocument [Some "https://a.test/sitemap.xml"]
        [Some "https://a.test/p"]).

(** ** The public methods, called one after the other *)

(** A call of a public method of the manager by a single thread. *)
Inductive call : Type :=
  | CallExtractLinks (links : list Link) (current_url : string) (depth : Z)
                     (should_crawl_callback : string → Z → bool)
  | CallCollectAllLinks (links : list Link) (source_url : string)
                        (crawl_results : list CrawlResult.t)
  | CallAddUrl (url : string) (depth : Z)
  | CallMarkVisited (url : string)
  | CallGetNextUrl
  | CallUpdateLinkStatuses (crawl_results : list CrawlResult.t)
  | CallGetSourcePages (url : string)
  | CallReset.

(** The state a call leaves behind (also when [extract_links] raises). *)
Definition exec {lib : UrlLib} (c : call) (st : LinkManager) : LinkManager :=
  match c with
  | CallExtractLinks links current_url depth cb =>
      (extract_links links current_url depth cb st).2
  | CallCollectAllLinks links source_url crawl_results =>
      collect_all_links links source_url crawl_results st
  | CallAddUrl url depth => add_url url depth st
  | CallMarkVisited url => mark_visited url st
  | CallGetNextUrl => (get_next_url st).2
  | CallUpdateLinkStatuses crawl_results =>
      update_link_statuses crawl_results st
  | CallGetSourcePages url => (get_source_pages url st).2
  | CallReset => reset st
  end.

Definition session {lib : UrlLib} (calls : list call) (st : LinkManager)
    : LinkManager :=
  foldl (λ st c, exec c st) st calls.

(** What [get_next_url] hands out in a step. *)
Definition handed_out (a : action) (st : LinkManager) : list (string * Z) :=
  match a with
  | GetNextUrl => option_list (get_next_url st).1
  | _ => []
  end.

(** All entries handed out by [get_next_url] during an execution, in the
    order of the calls. *)
Fixpoint dequeued (acts : list action) (st : LinkManager)
    : list (string * Z) :=
  match acts with
  | [] => []
  | a :: acts => handed_out a st ++ dequeued acts (step a st)
  end.

(** The source page of every recorded edge is listed for its target. *)
Definition edges_indexed (st : LinkManager) : Prop :=
  ∀ d, d ∈ all_links st →
       LinkData.source_url d ∈ sources_of st (LinkData.target_url d).

(** What [collect_all_links] puts into the fields of an edge, for a
    manager with the base domain [base]. *)
Definition edge_ok (base : option string) (d : LinkData.t) : Prop :=
  LinkData.anchor_text d ≠ ""
  ∧ (String.length (LinkData.anchor_text d) ≤ 100)%nat
  ∧ LinkData.is_internal d = classify (LinkData.target_domain d) base
  ∧ LinkData.placement d ∈ ["footer"; "navigation"; "body"]
  ∧ (LinkData.link_path d = ""
     ∨ PyStr.startswith (LinkData.link_path d) "//" = true).

(** What the calls of the public methods maintain. *)
Definition session_inv (base : option string) (st : LinkManager) : Prop :=
  store_ok st ∧ edges_indexed st ∧ base_domain st = base
  ∧ Forall (edge_ok base) (all_links st).

(** An element that none of the tests of [_detect_link_placement] reacts
    to: no class, no id, and a tag other than footer, nav and header. *)
Definition plain (e : Element) : Prop :=
  tag_class e = []
  ∧ (tag_id e = None ∨ tag_id e = Some "")
  ∧ tag_name e ≠ ""
  ∧ tag_name e ∉ ["footer"; "nav"; "header"].

(** An element at which the walk of [_get_dom_path] ends: [<body>],
    [<html>], or an element without a name. *)
Definition stops_path (e : Element) : Prop :=
  tag_name e = ""
  ∨ PyStr.lower (tag_name e) = "html"
  ∨ PyStr.lower (tag_name e) = "body".

(** ** Sitemap discovery *)

Module Discovery.
Import Sitemap.

(** [response.text]: the content, decoded *)
Definition text (response : Response) : string := content response.

Section Discover.
Context {lib : UrlLib}.
Variable session_get : string → result Response.
Variable js_renderer : option (string → result (option JsResult)).
Variable gzip_decompress : string → result string.
Variable fromstring : string → result Document.

(** The loop of lines 62-66 over the lines of [robots.txt]; [sitemaps] is
    the list built so far.  [line.split(':', 1)[1]] raises [IndexError]
    when the line has no colon; the handler of line 68 then returns what
    has been collected. *)
Fixpoint robots_lines (lines : list string) (sitemaps : list string)
    : list string :=
  match lines with
  | [] => sitemaps
  | line :: lines =>
      let line := PyStr.strip line in
      if PyStr.startswith (PyStr.lower line) "sitemap:" then
        match PyStr.split1 ":" line with
        | Some (_, sitemap_url) =>
            robots_lines lines (sitemaps ++ [PyStr.strip sitemap_url])
        | None => sitemaps
        end
      else robots_lines lines sitemaps
  end.

(** [_get_sitemaps_from_robots(base_domain)] *)
Definition _get_sitemaps_from_robots (base_domain : string) : list string :=
  match session_get (base_domain +:+ "/robots.txt") with
  | Ok response =>
      if decide (status_code response = 200)
      then robots_lines (PyStr.split "010" (text response)) []
      else []
  | Raise _ => []
  end.



End Discover.
End Discovery.

(** The sitemap a line of [robots.txt] declares, if it declares one. *)
Definition declared_sitemap (line : string) : option string :=
  let line := PyStr.strip line in
  if PyStr.startswith (PyStr.lower line) "sitemap:"
  then Some (PyStr.strip (PyStr.drop 8 line))
  else None.

(** [1 + b + b^2 + ...], [n] terms: the number of nodes of a tree of
    height [n] in which every node has [b] children. *)
Fixpoint geometric (b n : nat) : nat :=
  match n with
  | O => O
  | S n => S (b * geometric b n)
  end.

(** * Properties *)

(** ** The model of [urllib.parse] on two joins *)

Example urljoin_relative :
  Urllib.urljoin_ "https://shop.test/a" "/b" = Ok "https://shop.test/b".
Proof. vm_compute. reflexivity. Qed.

Example urljoin_dots :
  Urllib.urljoin_ "http://a/b/c/d;p?q" "../g?y#s" = Ok "http://a/b/g?y#s".
Proof. vm_compute. reflexivity. Qed.



(** ** The frontier *)

Section Frontier.

Lemma track_source_frontier clean_url current_url st :
  visited_urls (track_source clean_url current_url st) = visited_urls st
  ∧ discovered_urls (track_source clean_url current_url st) = discovered_urls st
  ∧ all_discovered_urls (track_source clean_url current_url st)
    = all_discovered_urls st.
Proof.
  unfold track_source.
  destruct (source_pages st !! clean_url) as [l|] eqn:Hl; simpl.
  - rewrite Hl. destruct (heap st !! l); [case_decide|]; done.
  - rewrite lookup_insert_eq.
    destruct ((heap st ++ [[]]) !! length (heap st)); [case_decide|]; done.
Qed.

(** What each step appends to the pending queue. *)
Lemma appended_spec a st :
  appended a st =
    match a with
    | Extract clean_url current_url depth cb =>
        if decide ((clean_url ∉ visited_urls st)
                   ∧ (clean_url ∉ all_discovered_urls st)
                   ∧ clean_url ≠ current_url)
        then if cb clean_url depth then [(clean_url, depth)] else []
        else []
    | AddUrl url depth =>
        if decide ((url ∉ all_discovered_urls st) ∧ (url ∉ visited_urls st))
        then [(url, depth)] else []
    | _ => []
    end.
Proof.
  unfold appended.
  destruct a as [c cur d cb|c s|ld|u d|u| |rs|u| |]; simpl;
    try (by rewrite drop_all).
  - destruct (track_source_frontier c cur st) as (Hv & Hq & Hd).
    unfold enqueue_if_new. rewrite Hv, Hd, Hq.
    case_decide; [destruct (cb c d)|]; simpl;
      rewrite ?Hq, ?drop_app_length, ?drop_all; done.
  - destruct (track_source_frontier c s st) as (_ & -> & _).
    by rewrite drop_all.
  - unfold record_link. case_decide; simpl; by rewrite drop_all.
  - unfold add_url. case_decide; simpl;
      rewrite ?drop_app_length, ?drop_all; done.
  - unfold get_next_url.
    destruct (discovered_urls st) as [|e q] eqn:Hq; simpl; rewrite ?Hq.
    + done.
    + apply drop_ge. simpl. lia.
  - apply drop_nil.
Qed.

(** The queue after a step: the queue before, without its head after
    [get_next_url] and emptied by [reset], followed by what the step
    appended. *)
Lemma step_queue a st :
  discovered_urls (step a st) =
    match a with
    | GetNextUrl => tail (discovered_urls st)
    | ResetUrls => []
    | _ => discovered_urls st
    end ++ appended a st.
Proof.
  rewrite appended_spec.
  destruct a as [c cur d cb|c s|ld|u d|u| |rs|u| |]; simpl;
    rewrite ?app_nil_r; try done.
  - destruct (track_source_frontier c cur st) as (Hv & Hq & Hd).
    unfold enqueue_if_new. rewrite Hv, Hd.
    case_decide; [destruct (cb c d)|]; simpl; by rewrite ?Hq, ?app_nil_r.
  - by destruct (track_source_frontier c s st) as (_ & -> & _).
  - unfold record_link. by case_decide.
  - unfold add_url. case_decide; simpl; by rewrite ?app_nil_r.
  - unfold get_next_url.
    by destruct (discovered_urls st) eqn:Hq; simpl; rewrite ?Hq.
Qed.

(** Between resets the two sets only grow. *)
Lemma step_sets_mono a st :
  is_reset_urls a = false →
  all_discovered_urls st ⊆ all_discovered_urls (step a st)
  ∧ visited_urls st ⊆ visited_urls (step a st).
Proof.
  intros Ha.
  destruct a as [c cur d cb|c s|ld|u d|u| |rs|u| |]; simpl; try done.
  - destruct (track_source_frontier c cur st) as (Hv & Hq & Hd).
    unfold enqueue_if_new. rewrite Hv, Hd.
    case_decide; [destruct (cb c d)|]; simpl; rewrite ?Hv, ?Hd; set_solver.
  - by destruct (track_source_frontier c s st) as (-> & _ & ->).
  - unfold record_link. by case_decide.
  - unfold add_url. case_decide; simpl; set_solver.
  - set_solver.
  - unfold get_next_url. by destruct (discovered_urls st).
Qed.

(** An entry is appended only for a URL that is in neither set, and the
    step puts the URL into [all_discovered_urls]. *)
Lemma appended_inv a st e :
  e ∈ appended a st →
  appended a st = [e]
  ∧ (e.1 ∉ all_discovered_urls st)
  ∧ (e.1 ∉ visited_urls st)
  ∧ e.1 ∈ all_discovered_urls (step a st).
Proof.
  rewrite appended_spec.
  destruct a as [c cur d cb|c s|ld|u d|u| |rs|u| |]; simpl;
    try (by intros ?%elem_of_nil).
  - destruct (track_source_frontier c cur st) as (Hv & Hq & Hd).
    unfold enqueue_if_new. rewrite Hv, Hd.
    case_decide as Hc; [destruct (cb c d)|]; try (by intros ?%elem_of_nil).
    intros ->%list_elem_of_singleton. simpl. set_solver.
  - unfold add_url.
    case_decide as Hc; try (by intros ?%elem_of_nil).
    intros ->%list_elem_of_singleton. simpl. set_solver.
Qed.

Lemma enqueued_fresh acts st :
  no_reset acts →
  NoDup (enqueued acts st).*1
  ∧ ∀ e, e ∈ enqueued acts st →
         (e.1 ∉ all_discovered_urls st) ∧ (e.1 ∉ visited_urls st).
Proof.
  intros Hacts. revert st.
  induction Hacts as [|a acts Ha _ IH]; intros st; simpl.
  { split; [constructor | by intros ? ?%elem_of_nil]. }
  destruct (IH (step a st)) as [Hnd Hfresh].
  destruct (step_sets_mono a st Ha) as [Hd Hv].
  split.
  - rewrite fmap_app. apply NoDup_app. split_and!; [| |done].
    + destruct (appended a st) as [|e q] eqn:Happ; [constructor|].
      destruct (appended_inv a st e) as (Heq & _); [rewrite Happ; left|].
      assert (q = []) as -> by congruence. apply NoDup_singleton.
    + intros u [e [-> He]]%list_elem_of_fmap [e' [Hu He']]%list_elem_of_fmap.
      apply appended_inv in He as (_ & _ & _ & Hin).
      apply Hfresh in He' as [Hn _]. rewrite <- Hu in Hn. done.
  - intros e [He|He]%elem_of_app.
    + apply appended_inv in He. naive_solver.
    + apply Hfresh in He. set_solver.
Qed.

End Frontier.

(** The page methods are executions of their sections. *)
Section MethodsAsRuns.
Context {lib : UrlLib}.

Lemma run_app acts1 acts2 st :
  run (acts1 ++ acts2) st = run acts2 (run acts1 st).
Proof. apply foldl_app. Qed.

Lemma extract_links_run links current_url depth cb st :
  (extract_links links current_url depth cb st).2
  = run (extract_trace links current_url depth cb) st.
Proof.
  revert st. induction links as [|link links IH]; intros st; simpl; [done|].
  unfold extract_link.
  destruct (not_crawlable _); [apply IH|].
  destruct (resolve_href _ _) as [parsed|e]; simpl; [apply IH|done].
Qed.

Lemma track_source_base_domain clean_url source_url st :
  base_domain (track_source clean_url source_url st) = base_domain st.
Proof.
  unfold track_source.
  destruct (source_pages st !! clean_url) as [l|] eqn:Hl; simpl.
  - rewrite Hl. destruct (heap st !! l); [case_decide|]; done.
  - rewrite lookup_insert_eq.
    destruct ((heap st ++ [[]]) !! length (heap st)); [case_decide|]; done.
Qed.

Lemma collect_link_base_domain link source_url crawl_results st :
  base_domain (collect_link link source_url crawl_results st)
  = base_domain st.
Proof.
  unfold collect_link.
  destruct (_ || _); [done|]. destruct (_ || _); [done|].
  destruct (resolve_href _ _); [|done].
  unfold record_link. case_decide; simpl; apply track_source_base_domain.
Qed.

Lemma not_crawlable_split h :
  not_crawlable h
  = (negb (PyStr.nonempty h) || PyStr.startswith h "#")
    || (PyStr.startswith h "mailto:" || PyStr.startswith h "tel:").
Proof. unfold not_crawlable. by rewrite <- !orb_assoc. Qed.

Lemma collect_all_links_run links source_url crawl_results st :
  collect_all_links links source_url crawl_results st
  = run (collect_trace links source_url crawl_results (base_domain st)) st.
Proof.
  unfold collect_all_links.
  revert st. induction links as [|link links IH]; intros st; simpl; [done|].
  rewrite IH, collect_link_base_domain. unfold collect_link.
  rewrite not_crawlable_split.
  destruct (_ || _); [done|]. destruct (_ || _); [done|].
  by destruct (resolve_href _ _).
Qed.

End MethodsAsRuns.

(** C1.  In an execution without reset, the entries appended to the pending
    queue carry pairwise different URLs (at most one entry per URL is ever
    appended, whatever sections of [extract_links], [add_url],
    [get_next_url], ... are interleaved), and a URL that is already in
    [all_discovered_urls] is never appended again.  A call of
    [extract_links] is the execution [extract_trace] of [Extract] steps
    ([extract_links_run]), a call of [add_url] the step [AddUrl]. *)
Theorem at_most_one_enqueue_per_url (acts : list action) (st : LinkManager) :
  no_reset acts →
  NoDup (enqueued acts st).*1
  ∧ ∀ url, url ∈ all_discovered_urls st → url ∉ (enqueued acts st).*1.
Proof.
  intros Hacts. destruct (enqueued_fresh acts st Hacts) as [Hnd Hfresh].
  split; [done|].
  intros url Hurl [e [-> He]]%list_elem_of_fmap.
  by apply Hfresh in He as [? _].
Qed.

Lemma at_most_one_enqueue_per_url_witness :
  let acts := [AddUrl "https://a.test/p" 1; GetNextUrl;
               Extract "https://a.test/p" "https://a.test/" 2 (λ _ _, true);
               AddUrl "https://a.test/p" 3] in
  no_reset acts
  ∧ NoDup (enqueued acts (__init__ None [])).*1
  ∧ ∀ url, url ∈ all_discovered_urls (__init__ None []) →
           url ∉ (enqueued acts (__init__ None [])).*1.
Proof.
  intros acts. split.
  - repeat constructor.
  - apply (at_most_one_enqueue_per_url acts (__init__ None [])).
    repeat constructor.
Defined.

(** C2.  Once [mark_visited(url)] has been called, no step of the crawl
    run (an execution up to the next [reset], which ends the run and
    empties [visited_urls]) appends [url] to the pending queue: neither a
    section of [extract_links] whose clean URL is [url] nor [add_url(url,
    depth)], whether or not [url] was ever enqueued before. *)
Theorem visited_never_enqueued (url : string) (acts : list action)
    (st : LinkManager) :
  no_reset acts →
  url ∉ (enqueued acts (mark_visited url st)).*1.
Proof.
  intros Hacts [e [-> He]]%list_elem_of_fmap.
  apply (enqueued_fresh acts _ Hacts) in He as [_ Hv].
  apply Hv. simpl. set_solver.
Qed.

Lemma visited_never_enqueued_witness :
  let acts := [AddUrl "https://a.test/p" 1;
               Extract "https://a.test/p" "https://a.test/" 2 (λ _ _, true)] in
  no_reset acts
  ∧ "https://a.test/p"
    ∉ (enqueued acts (mark_visited "https://a.test/p" (__init__ None []))).*1.
Proof.
  intros acts. split.
  - repeat constructor.
  - apply (visited_never_enqueued "https://a.test/p" acts (__init__ None [])).
    repeat constructor.
Defined.


(** ** The source index *)

Section SourceIndex.

Lemma first_seen_elem x l : x ∈ first_seen l ↔ x ∈ l.
Proof.
  induction l as [|y l IH]; simpl; [done|].
  rewrite !elem_of_cons, list_elem_of_filter, IH.
  destruct (decide (x = y)); naive_solver.
Qed.

Lemma first_seen_NoDup l : NoDup (first_seen l).
Proof.
  induction l as [|y l IH]; simpl; constructor.
  - rewrite list_elem_of_filter. naive_solver.
  - by apply NoDup_filter.
Qed.

Lemma foldl_observe acc l :
  foldl observe acc l = acc ++ filter (λ y, y ∉ acc) (first_seen l).
Proof.
  revert acc. induction l as [|x l IH]; intros acc; simpl.
  { by rewrite app_nil_r. }
  rewrite IH. unfold observe. rewrite filter_cons.
  destruct (decide (x ∈ acc)) as [Hx|Hx].
  - rewrite decide_False by (intros Hn; by apply Hn).
    f_equal. rewrite list_filter_filter. apply list_filter_iff.
    intros y. naive_solver.
  - rewrite decide_True by done.
    rewrite <- app_assoc. simpl. do 2 f_equal.
    rewrite list_filter_filter. apply list_filter_iff.
    intros y. rewrite elem_of_app, list_elem_of_singleton. naive_solver.
Qed.

Lemma foldl_observe_nil l : foldl observe [] l = first_seen l.
Proof.
  rewrite foldl_observe. simpl.
  induction (first_seen l) as [|x k IH]; [done|].
  rewrite filter_cons_True by apply not_elem_of_nil. by rewrite IH.
Qed.

(** [track_source] performs [observe] on the list of the target and
    leaves the lists of the other targets alone. *)
Lemma track_source_sources clean_url source_url st :
  store_ok st →
  store_ok (track_source clean_url source_url st)
  ∧ ∀ u, sources_of (track_source clean_url source_url st) u
         = if decide (u = clean_url)
           then observe (sources_of st clean_url) source_url
           else sources_of st u.
Proof.
  intros Hok. unfold track_source, sources_of, observe.
  destruct (source_pages st !! clean_url) as [l|] eqn:Hl; simpl.
  - rewrite Hl. destruct (Hok _ _ Hl) as [Hlt Hinj].
    destruct (lookup_lt_is_Some_2 _ _ Hlt) as [srcs Hsrcs].
    rewrite Hsrcs. simpl. case_decide as Hin.
    + split; [done|]. intros u. case_decide; subst; by rewrite ?Hl, ?Hsrcs.
    + split.
      * intros u l' Hu. simpl in *. rewrite length_insert. by apply Hok.
      * intros u. simpl. case_decide as Hu; subst.
        -- by rewrite Hl, list_lookup_insert_eq.
        -- destruct (source_pages st !! u) as [l'|] eqn:Hl'; [|done].
           rewrite list_lookup_insert_ne; [done|].
           intros <-. by apply Hu, Hinj.
  - rewrite lookup_insert_eq. simpl.
    rewrite lookup_app_r, Nat.sub_diag by lia. simpl.
    split.
    + intros u l' Hu. simpl in *. rewrite length_insert, length_app. simpl.
      destruct (decide (u = clean_url)) as [->|Hne].
      * rewrite lookup_insert_eq in Hu. simplify_eq. split; [lia|].
        intros u' Hu'. destruct (decide (u' = clean_url)) as [|Hne']; [done|].
        rewrite lookup_insert_ne in Hu' by done.
        apply Hok in Hu' as [? _]. lia.
      * rewrite lookup_insert_ne in Hu by done.
        destruct (Hok _ _ Hu) as [Hlt Hinj]. split; [lia|].
        intros u' Hu'. destruct (decide (u' = clean_url)) as [->|Hne'].
        -- rewrite lookup_insert_eq in Hu'. simplify_eq. lia.
        -- rewrite lookup_insert_ne in Hu' by done. by apply Hinj.
    + intros u. simpl. case_decide as Hu; subst.
      * rewrite lookup_insert_eq, list_lookup_insert_eq; [done|].
        rewrite length_app. simpl. lia.
      * rewrite lookup_insert_ne by done.
        destruct (source_pages st !! u) as [l'|] eqn:Hl'; [|done].
        destruct (Hok _ _ Hl') as [Hlt _].
        rewrite list_lookup_insert_ne by lia.
        by rewrite lookup_app_l.
Qed.

End SourceIndex.

Section SourceIndexRuns.

Lemma enqueue_store clean_url current_url depth cb st :
  source_pages (enqueue_if_new clean_url current_url depth cb st) = source_pages st
  ∧ heap (enqueue_if_new clean_url current_url depth cb st) = heap st.
Proof. unfold enqueue_if_new. case_decide; [destruct (cb _ _)|]; done. Qed.

Lemma same_store st st' :
  source_pages st' = source_pages st → heap st' = heap st →
  store_ok st →
  store_ok st' ∧ ∀ u, sources_of st' u = sources_of st u.
Proof.
  intros Hs Hh. unfold store_ok, sources_of. rewrite Hs, Hh. done.
Qed.

(** The effect of a step on the lists of sources. *)
Lemma step_sources a st :
  store_ok st →
  store_ok (step a st)
  ∧ ∀ u, sources_of (step a st) u =
         match a with
         | Extract clean_url source_url _ _ | Track clean_url source_url =>
             if decide (u = clean_url)
             then observe (sources_of st clean_url) source_url
             else sources_of st u
         | ResetUrls => []
         | _ => sources_of st u
         end.
Proof.
  intros Hok.
  destruct a as [c cur d cb|c s|ld|u' d|u'| |rs|u'| |]; simpl.
  - destruct (track_source_sources c cur st Hok) as [Hok' Hsrc].
    destruct (enqueue_store c cur d cb (track_source c cur st)) as [Hs Hh].
    destruct (same_store _ _ Hs Hh Hok') as [Hok'' Hsrc'].
    split; [done|]. intros u. by rewrite Hsrc', Hsrc.
  - by apply track_source_sources.
  - apply same_store; [..|done]; unfold record_link; by case_decide.
  - apply same_store; [..|done]; unfold add_url; by case_decide.
  - by apply same_store.
  - apply same_store; [..|done]; unfold get_next_url;
      by destruct (discovered_urls st).
  - by apply same_store.
  - split.
    + intros u l Hu. simpl in *. rewrite length_app. simpl.
      destruct (Hok _ _ Hu) as [? Hinj]. split; [lia|done].
    + intros u. unfold sources_of. simpl.
      destruct (source_pages st !! u) as [l|] eqn:Hl; [|done].
      destruct (Hok _ _ Hl) as [? _]. by rewrite lookup_app_l.
  - split; [by intros u l ?|done].
  - by apply same_store.
Qed.

Lemma observations_cons url a acts :
  observations url (a :: acts) =
    match a with
    | Extract clean_url source_url _ _ | Track clean_url source_url =>
        if decide (clean_url = url) then [source_url] else []
    | _ => []
    end ++ observations url acts.
Proof.
  unfold observations. simpl.
  destruct a; try done; by case_decide.
Qed.

(** After an execution without reset, the list of a target is the list
    it had before, extended by [observe] with the sources reported for
    it, in the order of the steps. *)
Lemma run_sources acts st url :
  no_reset acts → store_ok st →
  store_ok (run acts st)
  ∧ sources_of (run acts st) url
    = foldl observe (sources_of st url) (observations url acts).
Proof.
  intros Hacts. revert st.
  induction Hacts as [|a acts Ha _ IH]; intros st Hok; [done|].
  destruct (step_sources a st Hok) as [Hok' Hsrc].
  destruct (IH _ Hok') as [Hrun Hsources].
  change (run (a :: acts) st) with (run acts (step a st)).
  split; [done|].
  rewrite Hsources, observations_cons, Hsrc, foldl_app.
  f_equal.
  destruct a as [c cur d cb|c s|ld|u' d|u'| |rs|u'| |]; try done.
  - destruct (decide (url = c)) as [->|Hne].
    + by rewrite decide_True.
    + by rewrite decide_False.
  - destruct (decide (url = c)) as [->|Hne].
    + by rewrite decide_True.
    + by rewrite decide_False.
Qed.

(** No step of the manager touches a list that is not in
    [source_pages]. *)
Lemma step_outside l a st :
  outside l st →
  outside l (step a st) ∧ heap (step a st) !! l = heap st !! l.
Proof.
  intros [Hlt Hout].
  assert (∀ st', source_pages st' = source_pages st → heap st' = heap st →
                 outside l st' ∧ heap st' !! l = heap st !! l) as Hsame.
  { intros st' Hs Hh. unfold outside. by rewrite Hs, Hh. }
  assert (∀ c s, outside l (track_source c s st)
                 ∧ heap (track_source c s st) !! l = heap st !! l) as Htrack.
  { intros c s. unfold track_source, outside.
    destruct (source_pages st !! c) as [l'|] eqn:Hl'; simpl.
    - rewrite Hl'. destruct (heap st !! l') as [srcs|] eqn:Hsrcs; [|done].
      case_decide; [done|]. simpl. rewrite length_insert.
      split; [done|]. apply list_lookup_insert_ne. intros ->. by eapply Hout.
    - rewrite lookup_insert_eq, lookup_app_r, Nat.sub_diag by lia. simpl.
      rewrite length_insert, length_app. simpl. split_and!.
      + lia.
      + intros u. destruct (decide (u = c)) as [->|Hne].
        * rewrite lookup_insert_eq. intros ?. simplify_eq. lia.
        * rewrite lookup_insert_ne by done. apply Hout.
      + rewrite list_lookup_insert_ne by lia. by apply lookup_app_l. }
  destruct a as [c cur d cb|c s|ld|u' d|u'| |rs|u'| |]; cbn [step].
  - destruct (Htrack c cur) as [[Hlt' Hout'] Hheap].
    destruct (enqueue_store c cur d cb (track_source c cur st)) as [Hs Hh].
    unfold outside. rewrite Hs, Hh. done.
  - apply Htrack.
  - apply Hsame; unfold record_link; by case_decide.
  - apply Hsame; unfold add_url; by case_decide.
  - by apply Hsame.
  - apply Hsame; unfold get_next_url; by destruct (discovered_urls st).
  - by apply Hsame.
  - unfold outside. simpl. rewrite length_app. simpl.
    split_and!; [lia|done|by apply lookup_app_l].
  - unfold outside. simpl. split; [split; [done|by intros u]|done].
  - by apply Hsame.
Qed.

Lemma run_outside l acts st :
  outside l st →
  outside l (run acts st) ∧ heap (run acts st) !! l = heap st !! l.
Proof.
  revert st. induction acts as [|a acts IH]; intros st Hout; [done|].
  destruct (step_outside l a st Hout) as [Hout' Heq].
  destruct (IH _ Hout') as [? Heq'].
  change (run (a :: acts) st) with (run acts (step a st)).
  by rewrite Heq'.
Qed.

End SourceIndexRuns.

Lemma init_store_ok base h : store_ok (__init__ base h).
Proof. intros u l Hu. simpl in Hu. by rewrite lookup_empty in Hu. Qed.

(** C5.  After any execution without reset that starts from a new manager,
    [get_source_pages(url)] returns a list that holds the source pages
    reported for [url], each once, in the order in which they were first
    reported (the empty list when none was).  The list is a new object: it
    did not exist before the call, [source_pages] does not refer to it, no
    later step of the manager changes it, and writing to it changes no
    list of the manager. *)
Theorem linked_from_first_seen (base : option string) (h : list (list string))
    (acts : list action) (url : string) :
  no_reset acts →
  let st := run acts (__init__ base h) in
  let l := (get_source_pages url st).1 in
  let st' := (get_source_pages url st).2 in
  let srcs := first_seen (observations url acts) in
  heap st' !! l = Some srcs
  ∧ NoDup srcs
  ∧ (∀ s, s ∈ srcs ↔ s ∈ observations url acts)
  ∧ heap st !! l = None
  ∧ (∀ u, source_pages st' !! u ≠ Some l)
  ∧ (∀ acts', heap (run acts' st') !! l = Some srcs)
  ∧ (∀ xs u,
       sources_of (set_sources (source_pages st') (<[l := xs]> (heap st')) st') u
       = sources_of st' u).
Proof.
  intros Hacts st l st' srcs.
  destruct (run_sources acts _ url Hacts (init_store_ok base h))
    as [Hok Hsrc].
  fold st in Hok, Hsrc.
  assert (sources_of st url = srcs) as Hsrcs.
  { rewrite Hsrc. unfold sources_of at 1. simpl. rewrite lookup_empty.
    apply foldl_observe_nil. }
  assert (heap st' !! l = Some srcs) as Hl.
  { subst st' l. simpl. rewrite lookup_app_r, Nat.sub_diag by lia.
    simpl. by rewrite Hsrcs. }
  assert (outside l st') as Hout.
  { subst st' l. unfold outside. simpl. rewrite length_app. simpl.
    split; [lia|]. intros u Hu. apply Hok in Hu as [? _]. lia. }
  split_and!.
  - done.
  - apply first_seen_NoDup.
  - intros s. apply first_seen_elem.
  - subst l. simpl. apply lookup_ge_None. lia.
  - apply Hout.
  - intros acts'. destruct (run_outside l acts' st' Hout) as [_ ->]. done.
  - intros xs u. unfold sources_of. simpl.
    destruct (source_pages st !! u) as [l'|] eqn:Hl'; [|done].
    rewrite list_lookup_insert_ne; [done|].
    intros <-. destruct Hout as [_ Hout]. by apply (Hout u).
Qed.

Lemma linked_from_first_seen_witness :
  let acts := [Extract "https://a.test/t" "https://a.test/1" 1 (λ _ _, true);
               Track "https://a.test/t" "https://a.test/1";
               Track "https://a.test/t" "https://a.test/2";
               Extract "https://a.test/t" "https://a.test/1" 1 (λ _ _, true)] in
  no_reset acts
  ∧ heap (get_source_pages "https://a.test/t" (run acts (__init__ None []))).2
      !! (get_source_pages "https://a.test/t" (run acts (__init__ None []))).1
    = Some ["https://a.test/1"; "https://a.test/2"].
Proof.
  intros acts.
  assert (no_reset acts) as Hacts by repeat constructor.
  split; [exact Hacts|].
  pose proof (linked_from_first_seen None [] acts "https://a.test/t" Hacts)
    as [Hcopy _].
  vm_compute in Hcopy. vm_compute. exact Hcopy.
Defined.

(** ** The link graph *)

Section LinkGraph.

Lemma endpoints_key d d' : endpoints d = endpoints d' → link_key d = link_key d'.
Proof. unfold endpoints, link_key. by intros [= -> ->]. Qed.

Lemma update_link_endpoints lookup d :
  endpoints (update_link lookup d) = endpoints d.
Proof. unfold update_link. by destruct (lookup !! _). Qed.

Lemma record_link_known d st :
  link_key d ∈ links_set st → record_link d st = st.
Proof.
  intros Hin. unfold record_link. fold (link_key d).
  by rewrite decide_False by (intros Hn; by apply Hn).
Qed.

Lemma track_source_links clean_url source_url st :
  all_links (track_source clean_url source_url st) = all_links st
  ∧ links_set (track_source clean_url source_url st) = links_set st.
Proof.
  unfold track_source.
  destruct (source_pages st !! clean_url) as [l|] eqn:Hl; simpl.
  - rewrite Hl. destruct (heap st !! l); [case_decide|]; done.
  - rewrite lookup_insert_eq.
    destruct ((heap st ++ [[]]) !! length (heap st)); [case_decide|]; done.
Qed.

Lemma step_links_ok a st : links_ok st → links_ok (step a st).
Proof.
  intros [Hkeys Hnd].
  assert (∀ st', all_links st' = all_links st → links_set st' = links_set st
                 → links_ok st') as Hsame.
  { intros st' Hl Hs. unfold links_ok. by rewrite Hl, Hs. }
  destruct a as [c cur d cb|c s|ld|u' d|u'| |rs|u'| |]; cbn [step].
  - destruct (track_source_links c cur st) as [Hl Hs].
    apply Hsame; unfold enqueue_if_new; (case_decide; [destruct (cb _ _)|]); done.
  - destruct (track_source_links c s st) as [Hl Hs]. by apply Hsame.
  - unfold record_link. fold (link_key ld).
    case_decide as Hnew; [|done]. split; simpl.
    + intros d [Hd| ->%list_elem_of_singleton]%elem_of_app.
      * apply Hkeys in Hd. set_solver.
      * set_solver.
    + rewrite fmap_app. apply NoDup_app. split_and!; [done| |].
      * intros e He [d [-> ->%list_elem_of_singleton]]%list_elem_of_fmap.
        apply list_elem_of_fmap in He as [d' [Heq%endpoints_key Hd']].
        apply Hnew. rewrite Heq. by apply Hkeys.
      * apply NoDup_singleton.
  - apply Hsame; unfold add_url; by case_decide.
  - by apply Hsame.
  - apply Hsame; unfold get_next_url; by destruct (discovered_urls st).
  - split; simpl.
    + intros d [d' [-> Hd']]%list_elem_of_fmap.
      apply Hkeys in Hd'. unfold update_link.
      by destruct (_ !! _).
    + rewrite <- list_fmap_compose.
      erewrite list_fmap_ext; [exact Hnd|].
      intros i d _. apply update_link_endpoints.
  - by apply Hsame.
  - by apply Hsame.
  - split; simpl; [by intros d ?%elem_of_nil|constructor].
Qed.

Lemma run_links_ok acts st : links_ok st → links_ok (run acts st).
Proof.
  revert st. induction acts as [|a acts IH]; intros st Hok; [done|].
  apply IH, step_links_ok, Hok.
Qed.

Lemma init_links_ok base h : links_ok (__init__ base h).
Proof. split; simpl; [by intros d ?%elem_of_nil|constructor]. Qed.

Lemma status_lookup_snoc rs r :
  status_lookup (rs ++ [r])
  = <[CrawlResult.url r := CrawlResult.status_code r]> (status_lookup rs).
Proof. unfold status_lookup. by rewrite foldl_app. Qed.

(** The dict comprehension keeps, for every URL, the status of the last
    result that carries it. *)
Lemma status_lookup_last rs u :
  status_lookup rs !! u = last_status u rs.
Proof.
  unfold last_status.
  induction rs as [|r rs IH] using rev_ind; [done|].
  rewrite status_lookup_snoc, filter_app, filter_cons, filter_nil.
  destruct (decide (CrawlResult.url r = u)) as [<-|Hne].
  - by rewrite lookup_insert_eq, last_snoc.
  - by rewrite lookup_insert_ne, app_nil_r.
Qed.

End LinkGraph.

Section LinkGraphClaims.
Context {lib : UrlLib}.

Lemma last_status_Some u rs s :
  last_status u rs = Some s →
  ∃ r, r ∈ rs ∧ CrawlResult.url r = u ∧ CrawlResult.status_code r = s.
Proof.
  unfold last_status. intros Hlast.
  apply fmap_Some in Hlast as [r [Hr ->]].
  apply last_Some in Hr as [k Hk].
  assert (r ∈ filter (λ r, CrawlResult.url r = u) rs) as Hin.
  { rewrite Hk. apply elem_of_app. right. by left. }
  apply list_elem_of_filter in Hin as [? ?]. by exists r.
Qed.

Lemma last_status_None u rs :
  last_status u rs = None ↔ u ∉ CrawlResult.url <$> rs.
Proof.
  unfold last_status. rewrite fmap_None, last_None. split.
  - intros Hnil [r [-> Hr]]%list_elem_of_fmap.
    by eapply filter_nil_not_elem_of.
  - intros Hnot.
    destruct (filter _ rs) as [|r k] eqn:Hf; [done|].
    assert (r ∈ filter (λ r, CrawlResult.url r = u) rs) as Hin
      by (rewrite Hf; left).
    apply list_elem_of_filter in Hin as [<- Hin].
    exfalso. apply Hnot, list_elem_of_fmap. by exists r.
Qed.

Lemma collect_link_links link source_url crawl_results st :
  let st1 := collect_link link source_url crawl_results st in
  (st1 = st
   ∧ ∀ crawl_results' st', collect_link link source_url crawl_results' st' = st')
  ∨ ∃ parsed,
      resolve_href source_url (PyStr.strip (href link)) = Ok parsed
      ∧ link_key (make_link_data link source_url parsed crawl_results
                    (base_domain st)) ∈ links_set st1.
Proof.
  unfold collect_link.
  destruct (_ || _); [by left|]. destruct (_ || _); [by left|].
  destruct (resolve_href _ _) as [parsed|e]; [|by left].
  right. exists parsed. split; [done|].
  unfold record_link.
  match goal with |- context [decide (?k ∉ ?s)] =>
    change k with (link_key (make_link_data link source_url parsed
                               crawl_results (base_domain st)));
    generalize (link_key (make_link_data link source_url parsed
                            crawl_results (base_domain st)))
  end.
  intros key. case_decide as Hk; simpl; [set_solver|done].
Qed.

(** C4.  In every state the manager reaches, no two recorded edges have
    the same (source_url, target_url); recording link data whose
    endpoints are already recorded leaves the whole state as it is, so
    the anchor text, placement and link path of the first recording
    stay; and running the body of [collect_all_links] a second time on
    the same link of the same page changes neither [all_links] nor
    [links_set]. *)
Theorem record_link_idempotent (base : option string)
    (h : list (list string)) (acts : list action) :
  let st := run acts (__init__ base h) in
  NoDup (endpoints <$> all_links st)
  ∧ (∀ d, endpoints d ∈ endpoints <$> all_links st → record_link d st = st)
  ∧ (∀ link source_url crawl_results crawl_results',
       let st1 := collect_link link source_url crawl_results st in
       let st2 := collect_link link source_url crawl_results' st1 in
       all_links st2 = all_links st1 ∧ links_set st2 = links_set st1).
Proof.
  intros st.
  destruct (run_links_ok acts _ (init_links_ok base h)) as [Hkeys Hnd].
  fold st in Hkeys, Hnd.
  split_and!; [done| |].
  - intros d [d' [Heq%endpoints_key Hd']]%list_elem_of_fmap.
    apply record_link_known. rewrite Heq. by apply Hkeys.
  - intros link source_url rs rs' st1 st2.
    destruct (collect_link_links link source_url rs st)
      as [[_ Hskip]|[parsed [Hparsed Hkey]]].
    { subst st2. by rewrite Hskip. }
    fold st1 in Hkey. subst st2. unfold collect_link at 1 2.
    destruct (_ || _); [done|]. destruct (_ || _); [done|].
    rewrite Hparsed.
    destruct (track_source_links
                (LinkData.target_url
                   (make_link_data link source_url parsed rs' (base_domain st1)))
                source_url st1) as [Hl Hs].
    rewrite record_link_known; [done|].
    rewrite Hs. exact Hkey.
Qed.

(** C9.  [update_link_statuses] keeps the edges in place and changes
    nothing of an edge but [target_status]: an edge whose target is the
    URL of one of the given results gets the status of a result with that
    URL (the last one), an edge whose target is the URL of none keeps the
    status it had, so a status that is set stays set.  The rest of the
    manager is unchanged. *)
Theorem update_link_statuses_only_adds
    (crawl_results : list CrawlResult.t) (st : LinkManager) :
  let st' := update_link_statuses crawl_results st in
  Forall2
    (λ old new,
       LinkData.source_url new = LinkData.source_url old
       ∧ LinkData.target_url new = LinkData.target_url old
       ∧ LinkData.anchor_text new = LinkData.anchor_text old
       ∧ LinkData.is_internal new = LinkData.is_internal old
       ∧ LinkData.target_domain new = LinkData.target_domain old
       ∧ LinkData.placement new = LinkData.placement old
       ∧ LinkData.link_path new = LinkData.link_path old
       ∧ LinkData.target_status new
         = match last_status (LinkData.target_url old) crawl_results with
           | Some status => Some status
           | None => LinkData.target_status old
           end
       ∧ (LinkData.target_url old ∈ CrawlResult.url <$> crawl_results →
          ∃ r, r ∈ crawl_results
               ∧ CrawlResult.url r = LinkData.target_url old
               ∧ LinkData.target_status new = Some (CrawlResult.status_code r))
       ∧ (LinkData.target_url old ∉ CrawlResult.url <$> crawl_results →
          LinkData.target_status new = LinkData.target_status old)
       ∧ (is_Some (LinkData.target_status old) →
          is_Some (LinkData.target_status new)))
    (all_links st) (all_links st')
  ∧ links_set st' = links_set st
  ∧ visited_urls st' = visited_urls st
  ∧ discovered_urls st' = discovered_urls st
  ∧ all_discovered_urls st' = all_discovered_urls st
  ∧ source_pages st' = source_pages st
  ∧ heap st' = heap st
  ∧ base_domain st' = base_domain st.
Proof.
  intros st'. split; [|done].
  subst st'. simpl.
  apply Forall2_fmap_r, Forall_Forall2_diag, Forall_forall.
  intros d _. unfold update_link. simpl.
  rewrite status_lookup_last.
  destruct (last_status (LinkData.target_url d) crawl_results)
    as [s|] eqn:Hlast; simpl.
  - split_and!; try done.
    + intros _. apply last_status_Some in Hlast as (r & ? & ? & <-).
      by exists r.
    + intros Hnot%last_status_None. congruence.
  - split_and!; try done.
    intros Hin. apply last_status_None in Hlast. done.
Qed.

End LinkGraphClaims.

(** C10.  [add_url(url, depth)] appends [(url, depth)] to the pending queue
    exactly when the string [url] is in neither [all_discovered_urls] nor
    [visited_urls], and leaves the queue as it is otherwise.  The string is
    taken as given: after [https://a.test/p] has been visited, [add_url]
    still enqueues its spellings [https://a.test/p#top] and [/p], which
    [extract_links] normalizes to the visited URL and does not enqueue. *)
Theorem add_url_exact_string :
  (∀ url depth st,
     (discovered_urls (add_url url depth st)
        = discovered_urls st ++ [(url, depth)]
      ↔ (url ∉ all_discovered_urls st) ∧ (url ∉ visited_urls st))
     ∧ (discovered_urls (add_url url depth st) = discovered_urls st
        ↔ ¬ ((url ∉ all_discovered_urls st) ∧ (url ∉ visited_urls st))))
  ∧ discovered_urls (add_url "https://a.test/p" 1 visited_p) = []
  ∧ discovered_urls (add_url "https://a.test/p#top" 1 visited_p)
    = [("https://a.test/p#top", 1)]
  ∧ discovered_urls (add_url "/p" 1 visited_p) = [("/p", 1)]
  ∧ discovered_urls
      (@extract_links cpython [anchor "https://a.test/p#top" "P"; anchor "/p" "P"]
         "https://a.test/" 1 (λ _ _, true) visited_p).2 = [].
Proof.
  split_and!; [|vm_compute; reflexivity..].
  intros url depth st. unfold add_url.
  case_decide as H; simpl.
  - split; [done|]. split; [|done].
    intros Heq. apply (f_equal length) in Heq.
    rewrite length_app in Heq. simpl in Heq. lia.
  - split; [|done]. split; [|done].
    intros Heq. apply (f_equal length) in Heq.
    rewrite length_app in Heq. simpl in Heq. lia.
Qed.

(** ** Malformed hrefs *)

Section Malformed.
Context {lib : UrlLib}.

(** [collect_all_links] skips a link whose href does not parse. *)
Lemma collect_link_malformed link source_url crawl_results st e :
  resolve_href source_url (PyStr.strip (href link)) = Raise e →
  collect_link link source_url crawl_results st = st.
Proof.
  intros He. unfold collect_link. rewrite He.
  destruct (_ || _); [done|]. by destruct (_ || _).
Qed.

(** [extract_links] has no handler: the exception leaves the method, and
    the links after the malformed one are not looked at. *)
Lemma extract_links_malformed link links current_url depth cb st e :
  not_crawlable (PyStr.strip (href link)) = false →
  resolve_href current_url (PyStr.strip (href link)) = Raise e →
  extract_links (link :: links) current_url depth cb st = (Raise e, st).
Proof.
  intros Hc He. simpl. unfold extract_link. by rewrite Hc, He.
Qed.

End Malformed.

(** C3 (the code departs from the claim in [extract_links]).  On a page
    with the links [<a href="http://[">] and [<a href="/ok">],
    [extract_links] raises the [ValueError] of [urljoin] and enqueues
    nothing, not even the second link, while [collect_all_links] skips the
    first link and records the second. *)
Theorem extract_links_raises_on_malformed_href :
  let links := [anchor "http://[" "bad"; anchor "/ok" "good"] in
  let st := __init__ (Some "a.test") [] in
  @extract_links cpython links "https://a.test/" 1 (λ _ _, true) st
  = (Raise (ValueError "Invalid IPv6 URL"), st)
  ∧ LinkData.target_url
      <$> all_links (@collect_all_links cpython links "https://a.test/" [] st)
    = ["https://a.test/ok"]
  ∧ discovered_urls
      (@extract_links cpython [anchor "/ok" "good"] "https://a.test/" 1
         (λ _ _, true) st).2
    = [("https://a.test/ok", 1)].
Proof. vm_compute. split_and!; reflexivity. Qed.

(** ** Domain classification *)

Section Classification.
Import PyStr.

Lemma nonempty_false s : nonempty s = false ↔ s = "".
Proof. by destruct s. Qed.

Lemma nonempty_true s : nonempty s = true ↔ s ≠ "".
Proof. by destruct s. Qed.

Lemma strip_www_prefix h : strip_www ("www." +:+ h) = h.
Proof.
  unfold strip_www, startswith. simpl.
  by destruct h.
Qed.

Lemma strip_www_other h : startswith h "www." = false → strip_www h = h.
Proof. unfold strip_www. by intros ->. Qed.

Lemma and_and_eq_truthy a b :
  truthy (and_and_eq a b) = true ↔ a ≠ "" ∧ b ≠ "" ∧ a = b.
Proof.
  unfold and_and_eq.
  destruct a as [|c a]; simpl; [naive_solver|].
  destruct b as [|d b]; simpl; [naive_solver|].
  rewrite bool_decide_eq_true. naive_solver.
Qed.

Lemma char_lower_idempotent c : char_lower (char_lower c) = char_lower c.
Proof. by destruct c as [[] [] [] [] [] [] [] []]. Qed.

Lemma lower_idempotent s : lower (lower s) = lower s.
Proof.
  induction s as [|c s IH]; simpl; [done|].
  by rewrite char_lower_idempotent, IH.
Qed.

(** [self.base_domain.lower() if self.base_domain else ''] is the
    lower-cased base domain, also when the base domain is empty. *)
Lemma base_domain_lower_Some b : base_domain_lower (Some b) = lower b.
Proof. by destruct b. Qed.

Lemma classify_empty_base host base :
  base = None ∨ base = Some "" → truthy (classify host base) = false.
Proof.
  intros Hbase. apply not_true_is_false.
  unfold classify. rewrite and_and_eq_truthy.
  intros (_ & Hb & _). apply Hb. by destruct Hbase as [-> | ->].
Qed.

End Classification.

(** C6.  The example of the specification holds on the standard library:
    with the base domain [example.com] both [https://www.example.com/x] and
    [https://example.com/x] are internal, and so they are when the base
    domain is spelled [WWW.Example.COM].  In general the classification
    lower-cases the host of the URL and the base domain, strips one leading
    [www.] from each, and is truthy exactly when both results are non-empty
    and equal, so the letter case of either side makes no difference; this
    is the value [is_internal] returns for a URL that parses and the value
    [collect_all_links] stores in the edge.  With no base domain or an
    empty one, no URL is classified internal. *)
Theorem domain_classification :
  (∀ st, base_domain st = Some "example.com" →
     @is_internal cpython "https://www.example.com/x" st = Ok (PBool true)
     ∧ @is_internal cpython "https://example.com/x" st = Ok (PBool true))
  ∧ (∀ h, strip_www ("www." +:+ h) = h)
  ∧ (∀ h, PyStr.startswith h "www." = false → strip_www h = h)
  ∧ (∀ host base,
       truthy (classify host base) = true
       ↔ strip_www (PyStr.lower host) ≠ ""
         ∧ strip_www (base_domain_lower base) ≠ ""
         ∧ strip_www (PyStr.lower host) = strip_www (base_domain_lower base))
  ∧ (∀ (lib : UrlLib) url st parsed,
       urlparse url = Ok parsed →
       is_internal url st = Ok (classify (netloc parsed) (base_domain st)))
  ∧ (∀ link source_url parsed crawl_results base,
       LinkData.is_internal
         (make_link_data link source_url parsed crawl_results base)
       = classify (netloc parsed) base)
  ∧ (∀ (lib : UrlLib) url st,
       base_domain st = None ∨ base_domain st = Some "" →
       match is_internal url st with
       | Ok v => truthy v = false
       | Raise _ => is_ok (urlparse url) = false
       end)
  ∧ classify "WWW.Example.COM" (Some "example.com") = PBool true
  ∧ classify "www.www.example.com" (Some "example.com") = PBool false
  ∧ (∀ b, base_domain_lower (Some b) = PyStr.lower b)
  ∧ base_domain_lower None = ""
  ∧ (∀ host b,
       truthy (classify host (Some b)) = true
       ↔ strip_www (PyStr.lower host) ≠ ""
         ∧ strip_www (PyStr.lower b) ≠ ""
         ∧ strip_www (PyStr.lower host) = strip_www (PyStr.lower b))
  ∧ (∀ host b,
       classify host (Some b)
       = classify (PyStr.lower host) (Some (PyStr.lower b)))
  ∧ (∀ host, truthy (classify host None) = false)
  ∧ (∀ (lib : UrlLib) url st parsed,
       base_domain st = None ∨ base_domain st = Some "" →
       urlparse url = Ok parsed →
       ∃ v, is_internal url st = Ok v ∧ truthy v = false)
  ∧ classify "example.com" (Some "Example.COM") = PBool true
  ∧ classify "www.example.com" (Some "WWW.EXAMPLE.com") = PBool true
  ∧ classify "example.com" (Some "www.www.example.com") = PBool false
  ∧ (∀ st, base_domain st = Some "WWW.Example.COM" →
       @is_internal cpython "https://www.example.com/x" st = Ok (PBool true)
       ∧ @is_internal cpython "https://example.com/x" st = Ok (PBool true)
       ∧ @is_internal cpython "https://other.test/x" st = Ok (PBool false)).
Proof.
  split_and!.
  - intros st Hbase. unfold is_internal. rewrite Hbase. by vm_compute.
  - apply strip_www_prefix.
  - apply strip_www_other.
  - intros host base. apply and_and_eq_truthy.
  - intros lib url st parsed Hparsed. unfold is_internal. by rewrite Hparsed.
  - done.
  - intros lib url st Hbase. unfold is_internal.
    destruct (urlparse url) as [parsed|e]; simpl; [|done].
    by apply classify_empty_base.
  - by vm_compute.
  - by vm_compute.
  - apply base_domain_lower_Some.
  - done.
  - intros host b. unfold classify. rewrite base_domain_lower_Some.
    apply and_and_eq_truthy.
  - intros host b. unfold classify.
    by rewrite !base_domain_lower_Some, !lower_idempotent.
  - intros host. apply classify_empty_base. by left.
  - intros lib url st parsed Hbase Hparsed. unfold is_internal.
    rewrite Hparsed. simpl. eexists. split; [done|].
    by apply classify_empty_base.
  - by vm_compute.
  - by vm_compute.
  - by vm_compute.
  - intros st Hbase. unfold is_internal. rewrite Hbase. by vm_compute.
Qed.

(** ** Sitemap recursion *)

Module SitemapFacts.
Import Sitemap.

Section Facts.
Variable session_get : string → result Response.
Variable js_renderer : option (string → result (option JsResult)).
Variable gzip_decompress : string → result string.
Variable fromstring : string → result Document.

Local Abbreviation run :=
  (parse_sitemap_run session_get js_renderer gzip_decompress fromstring).
Local Abbreviation load :=
  (load session_get js_renderer gzip_decompress fromstring).

(** Past the limit nothing is fetched and the list is empty. *)
Lemma run_past_limit sitemap_url depth max_depth :
  depth > max_depth → run sitemap_url depth max_depth = mkRun [] [].
Proof.
  intros Hgt. rewrite parse_sitemap_run_equation_1.
  destruct (decide (depth > max_depth)); [done|lia].
Qed.

(** Within the limit: one fetch, then the nested sitemaps one level
    down, then the URLs of the document itself. *)
Lemma run_within_limit sitemap_url depth max_depth :
  depth ≤ max_depth →
  run sitemap_url depth max_depth =
    match load sitemap_url with
    | Ok (Some root) =>
        let nested :=
          (λ nested_url, run nested_url (depth + 1) max_depth)
          <$> loc_texts (sitemaps root) in
        mkRun (concat (returned <$> nested) ++ loc_texts (urls root))
              (sitemap_url :: concat (parsing <$> nested))
    | _ => mkRun [] [sitemap_url]
    end.
Proof.
  intros Hle. rewrite parse_sitemap_run_equation_1.
  destruct (decide (depth > max_depth)); [lia|]. simpl.
  by destruct (load sitemap_url) as [[root|]|e].
Qed.

Lemma concat_replicate_snoc (n : nat) (l : list string) :
  concat (replicate n l) ++ l = l ++ concat (replicate n l).
Proof.
  induction n as [|n IH]; simpl; [by rewrite app_nil_r|].
  by rewrite <- app_assoc, IH.
Qed.

Lemma run_self_cycle sitemap_url root max_depth (n : nat) depth :
  load sitemap_url = Ok (Some root) →
  loc_texts (sitemaps root) = [sitemap_url] →
  n = Z.to_nat (max_depth - depth + 1) →
  run sitemap_url depth max_depth
  = mkRun (concat (replicate n (loc_texts (urls root))))
          (replicate n sitemap_url).
Proof.
  intros Hload Hself. revert depth.
  induction n as [|n IH]; intros depth Hn.
  - apply run_past_limit. lia.
  - rewrite run_within_limit, Hload, Hself by lia. simpl.
    rewrite (IH (depth + 1)) by lia. simpl.
    by rewrite !app_nil_r, concat_replicate_snoc.
Qed.

End Facts.
End SitemapFacts.

(** C7.  [_parse_sitemap] is a total function: it returns a list for every
    sitemap, depth and limit, whatever the network, the decompressor and
    the XML parser do.  Called with a depth beyond [max_depth] it returns
    the empty list without fetching anything, and a sitemap that cannot be
    loaded contributes the empty list.  For a sitemap index whose only
    nested [<loc>] is its own URL, the call at depth [depth] fetches the
    document [max_depth - depth + 1] times ([max_depth] times from depth 1)
    and returns the URLs of the document once for each fetch. *)
Theorem parse_sitemap_self_cycle
    (session_get : string → result Sitemap.Response)
    (js_renderer : option (string → result (option Sitemap.JsResult)))
    (gzip_decompress : string → result string)
    (fromstring : string → result Sitemap.Document)
    (sitemap_url : string) (root : Sitemap.Document) (depth max_depth : Z) :
  let run := Sitemap.parse_sitemap_run session_get js_renderer
               gzip_decompress fromstring in
  let load := Sitemap.load session_get js_renderer gzip_decompress
                fromstring in
  load sitemap_url = Ok (Some root) →
  Sitemap.loc_texts (Sitemap.sitemaps root) = [sitemap_url] →
  let n := Z.to_nat (max_depth - depth + 1) in
  run sitemap_url depth max_depth
  = Sitemap.mkRun
      (concat (replicate n (Sitemap.loc_texts (Sitemap.urls root))))
      (replicate n sitemap_url)
  ∧ (depth = 1 → 0 ≤ max_depth →
     length (Sitemap.parsing (run sitemap_url depth max_depth))
     = Z.to_nat max_depth)
  ∧ (∀ url d, d > max_depth → run url d max_depth = Sitemap.mkRun [] [])
  ∧ (∀ url d, is_ok (load url) = false ∨ load url = Ok None →
              Sitemap.returned (run url d max_depth) = []).
Proof.
  intros run load Hload Hself n.
  assert (run sitemap_url depth max_depth
          = Sitemap.mkRun
              (concat (replicate n (Sitemap.loc_texts (Sitemap.urls root))))
              (replicate n sitemap_url)) as Hrun.
  { by eapply SitemapFacts.run_self_cycle. }
  split_and!.
  - exact Hrun.
  - intros -> Hmax. rewrite Hrun. simpl. rewrite length_replicate.
    subst n. f_equal. lia.
  - intros url d. apply SitemapFacts.run_past_limit.
  - intros url d Hfail. subst run.
    destruct (decide (d > max_depth)) as [Hgt|Hle].
    + by rewrite SitemapFacts.run_past_limit.
    + rewrite SitemapFacts.run_within_limit by lia.
      fold load. destruct (load url) as [[doc|]|e]; try done.
      by destruct Hfail.
Qed.

Lemma parse_sitemap_self_cycle_witness :
  Sitemap.parse_sitemap_run cyclic_session None (λ c, Ok c) cyclic_fromstring
    "https://a.test/sitemap.xml" 1 10
  = Sitemap.mkRun (replicate 10 "https://a.test/p")
                  (replicate 10 "https://a.test/sitemap.xml").
Proof.
  apply (parse_sitemap_self_cycle cyclic_session None (λ c, Ok c)
           cyclic_fromstring "https://a.test/sitemap.xml"
           (Sitemap.mkDocument [Some "https://a.test/sitemap.xml"]
              [Some "https://a.test/p"]) 1 10);
    reflexivity.
Defined.

(** ** URL normalization *)

Module PyStrFacts.
Import PyStr.

Lemma append_cons c s t : String c s +:+ t = String c (s +:+ t).
Proof. reflexivity. Qed.

Lemma append_nil_l t : "" +:+ t = t.
Proof. reflexivity. Qed.

Lemma append_nil_r s : s +:+ "" = s.
Proof.
  induction s as [|c s IH]; [done|]. by rewrite append_cons, IH.
Qed.

Lemma has_char_app c a b :
  has_char c (a +:+ b) = has_char c a || has_char c b.
Proof.
  induction a as [|d a IH]; [done|].
  rewrite append_cons. simpl. case_decide; [done|apply IH].
Qed.

Lemma has_char_rev_app c s t :
  has_char c (String.rev_app s t) = has_char c s || has_char c t.
Proof.
  revert t. induction s as [|d s IH]; intros t; simpl; [done|].
  rewrite IH. simpl. case_decide; simpl; [by rewrite orb_true_r|done].
Qed.

Lemma has_char_rev c s : has_char c (String.rev s) = has_char c s.
Proof. unfold String.rev. rewrite has_char_rev_app. simpl. apply orb_false_r. Qed.

Lemma has_char_drop c n s :
  has_char c s = false → has_char c (drop n s) = false.
Proof.
  revert s. induction n as [|n IH]; intros s; [done|].
  destruct s as [|d s]; simpl; [done|].
  case_decide; [done|apply IH].
Qed.

Lemma break_app p s : (break p s).1 +:+ (break p s).2 = s.
Proof.
  induction s as [|c s IH]; simpl; [done|].
  destruct (p c); [done|].
  destruct (break p s) as [a b]. simpl in *.
  by rewrite append_cons, IH.
Qed.

Lemma break_fst_lacks p c s : p c = true → has_char c (break p s).1 = false.
Proof.
  intros Hp. induction s as [|d s IH]; simpl; [done|].
  destruct (p d) eqn:Hd; [done|].
  destruct (break p s) as [a b]. simpl in *.
  case_decide; [congruence|done].
Qed.

Lemma break_lacks p c s :
  has_char c s = false →
  has_char c (break p s).1 = false ∧ has_char c (break p s).2 = false.
Proof.
  intros Hs. rewrite <- (break_app p s), has_char_app in Hs.
  by apply orb_false_elim in Hs.
Qed.

Lemma split1_Some c s a b :
  split1 c s = Some (a, b) → s = a +:+ String c b ∧ has_char c a = false.
Proof.
  revert a. induction s as [|d s IH]; intros a; simpl; [done|].
  case_decide as Hc.
  - intros [= <- <-]. by subst.
  - destruct (split1 c s) as [[a' b']|]; [|done].
    intros [= <- <-]. destruct (IH a' eq_refl) as [-> Ha'].
    split; [done|]. simpl. by rewrite decide_False.
Qed.

Lemma has_char_cons c d s :
  has_char c (String d s) = bool_decide (c = d) || has_char c s.
Proof. simpl. by case_decide; [rewrite bool_decide_true|rewrite bool_decide_false].
Qed.

Lemma split1_None c s : split1 c s = None → has_char c s = false.
Proof.
  induction s as [|d s IH]; simpl; [done|].
  case_decide; [done|].
  destruct (split1 c s) as [[a b]|]; [done|]. intros _. by apply IH.
Qed.

Lemma split1_lacks c d s a b :
  split1 c s = Some (a, b) → has_char d s = false →
  has_char d a = false ∧ has_char d b = false.
Proof.
  intros [-> _]%split1_Some. rewrite has_char_app, has_char_cons.
  intros [? [? ?]%orb_false_elim]%orb_false_elim. done.
Qed.

End PyStrFacts.

Module UrllibFacts.
Import PyStr PyStrFacts Urllib.

Lemma scheme_char_lower_not_hash c :
  scheme_char c = true → char_lower c ≠ "#"%char.
Proof.
  destruct c as [[] [] [] [] [] [] [] []]; vm_compute; congruence.
Qed.

Lemma lower_scheme_lacks_hash s :
  forallb scheme_char s = true → has_char "#" (lower s) = false.
Proof.
  induction s as [|c s IH]; simpl; [done|].
  intros [Hc Hs]%andb_true_iff.
  rewrite decide_False; [by apply IH|].
  intros Heq. by apply (scheme_char_lower_not_hash c).
Qed.

Lemma split_fragment_query_lacks_hash url1 url2 fragment url3 query :
  match split1 "#" url1 with
  | Some (u, f) => (u, f)
  | None => (url1, "")
  end = (url2, fragment) →
  match split1 "?" url2 with
  | Some (u, q) => (u, q)
  | None => (url2, "")
  end = (url3, query) →
  has_char "#" url3 = false ∧ has_char "#" query = false.
Proof.
  intros Hf Hq.
  assert (has_char "#" url2 = false) as H2.
  { destruct (split1 "#" url1) as [[u f]|] eqn:Hs; simplify_eq.
    - by apply split1_Some in Hs as [_ ?].
    - by apply split1_None. }
  destruct (split1 "?" url2) as [[u q]|] eqn:Hs; simplify_eq; [|done].
  by eapply split1_lacks.
Qed.

(** None of the components that [clean_url] is built from contains a
    ["#"]. *)
Lemma urlsplit_lacks_hash url sch net p q f :
  urlsplit url "" = Ok (sch, net, p, q, f) →
  has_char "#" sch = false ∧ has_char "#" net = false
  ∧ has_char "#" p = false ∧ has_char "#" q = false.
Proof.
  unfold urlsplit.
  change (filter _ (rstrip_by _ (lstrip_by _ ""))) with "".
  generalize (filter (λ c, negb (unsafe_byte c))
                (lstrip_by c0_control_or_space url)).
  intros u0.
  match goal with |- context [let '(_, _) := ?scrut in _] =>
    assert (has_char "#" scrut.1 = false) as Hscheme;
    [|destruct scrut as [scheme url0]]
  end.
  { destruct (split1 ":" u0) as [[pre rest]|]; [|done].
    destruct (_ && _) eqn:Hpre; [|done]. simpl.
    apply andb_true_iff in Hpre as [_ Hpre].
    by apply lower_scheme_lacks_hash. }
  simpl in Hscheme.
  destruct (startswith url0 "//").
  - unfold _splitnetloc.
    pose proof (break_fst_lacks netloc_delim "#" (drop 2 url0) eq_refl)
      as Hnet.
    destruct (break netloc_delim (drop 2 url0)) as [netloc url1].
    simpl in Hnet.
    destruct (_ || _); [done|].
    destruct (match split1 "#" url1 with Some _ => _ | None => _ end)
      as [url2 fragment] eqn:Hf.
    destruct (match split1 "?" url2 with Some _ => _ | None => _ end)
      as [url3 query] eqn:Hq.
    intros [= <- <- <- <- <-].
    destruct (split_fragment_query_lacks_hash _ _ _ _ _ Hf Hq). done.
  - destruct (match split1 "#" url0 with Some _ => _ | None => _ end)
      as [url2 fragment] eqn:Hf.
    destruct (match split1 "?" url2 with Some _ => _ | None => _ end)
      as [url3 query] eqn:Hq.
    intros [= <- <- <- <- <-].
    destruct (split_fragment_query_lacks_hash _ _ _ _ _ Hf Hq). done.
Qed.

Lemma splitparams_lacks_hash url :
  has_char "#" url = false → has_char "#" (_splitparams url).1 = false.
Proof.
  intros Hurl. unfold _splitparams.
  destruct (has_char "/" url).
  - unfold rbreak_slash.
    pose proof (break_lacks (λ c, bool_decide (c = "/"%char)) "#"
                  (String.rev url)) as Hb.
    rewrite has_char_rev in Hb. destruct (Hb Hurl) as [Ha Hb'].
    destruct (break _ (String.rev url)) as [a b].
    simpl in Ha, Hb'. cbv beta iota.
    destruct (split1 ";" (String "/" (String.rev a))) as [[x y]|] eqn:Hs;
      [|done].
    cbn [fst]. rewrite has_char_app.
    rewrite has_char_rev, (has_char_drop _ 1 _ Hb'). cbn [orb].
    eapply (split1_lacks _ "#") in Hs as [? _]; [done|].
    rewrite has_char_cons, has_char_rev, Ha. done.
  - destruct (split1 ";" url) as [[x y]|] eqn:Hs; [|done].
    simpl. by eapply (split1_lacks _ "#") in Hs as [? _].
Qed.

Lemma urlparse_lacks_hash url parsed :
  urlparse_ url = Ok parsed →
  has_char "#" (scheme parsed) = false
  ∧ has_char "#" (netloc parsed) = false
  ∧ has_char "#" (path parsed) = false
  ∧ has_char "#" (query parsed) = false.
Proof.
  unfold urlparse_, urlparse_with.
  destruct (urlsplit url "") as [[[[[sch net] p] q] f]|e] eqn:Hsplit;
    [|done].
  apply urlsplit_lacks_hash in Hsplit as (Hs & Hn & Hp & Hq).
  simpl.
  destruct (_ && _).
  - pose proof (splitparams_lacks_hash p Hp) as Hp'.
    destruct (_splitparams p) as [p' params']. by intros [= <-].
  - by intros [= <-].
Qed.

End UrllibFacts.

Lemma not_crawlable_rejected h : not_crawlable h = true ↔ rejected h.
Proof.
  unfold not_crawlable, rejected.
  rewrite !orb_true_iff, negb_true_iff, nonempty_false. tauto.
Qed.

Lemma not_crawlable_accepted h : not_crawlable h = false ↔ ¬ rejected h.
Proof.
  rewrite <- not_crawlable_rejected. by destruct (not_crawlable h).
Qed.

(** C8.  A link whose href, stripped of surrounding white space, is empty
    or starts with [#], [mailto:] or [tel:] is skipped by [extract_links]
    and by [collect_all_links]: the state stays as it is.  For any other
    href that [urljoin] resolves against the page URL to a URL that
    [urlparse] parses, both methods work with the clean URL
    [scheme://netloc path], followed by [?query] when the query is not
    empty: it is the URL [extract_links] tracks and enqueues and the
    [target_url] of the edge [collect_all_links] records.  With the
    standard library the clean URL never contains a [#]. *)
Theorem href_normalization :
  (∀ (lib : UrlLib) link page depth cb crawl_results st,
     rejected (PyStr.strip (href link)) →
     extract_link link page depth cb st = (Ok (), st)
     ∧ collect_link link page crawl_results st = st)
  ∧ (∀ (lib : UrlLib) link page depth cb crawl_results st absolute_url parsed,
       ¬ rejected (PyStr.strip (href link)) →
       urljoin page (PyStr.strip (href link)) = Ok absolute_url →
       urlparse absolute_url = Ok parsed →
       let clean_url :=
         (scheme parsed +:+ "://" +:+ netloc parsed +:+ path parsed)
         +:+ (if decide (query parsed = "") then ""
              else "?" +:+ query parsed) in
       extract_link link page depth cb st
       = (Ok (), enqueue_if_new clean_url page depth cb (track_source clean_url page st))
       ∧ collect_link link page crawl_results st
         = record_link
             (make_link_data link page parsed crawl_results (base_domain st))
             (track_source clean_url page st)
       ∧ LinkData.target_url
           (make_link_data link page parsed crawl_results (base_domain st))
         = clean_url)
  ∧ (∀ absolute_url parsed,
       @urlparse cpython absolute_url = Ok parsed →
       PyStr.has_char "#" (clean_url_of parsed) = false)
  ∧ discovered_urls
      (@extract_links cpython
         [anchor "  page.html;v=2?x=1&y=2#frag " "Page"; anchor " #top" "Top";
          anchor "mailto:a@b.test" "Mail"; anchor "tel:123" "Call";
          anchor "" "Empty"]
         "https://a.test/dir/index.html" 1 (λ _ _, true)
         (__init__ None [])).2
    = [("https://a.test/dir/page.html?x=1&y=2", 1)].
Proof.
  assert (∀ parsed,
            clean_url_of parsed
            = (scheme parsed +:+ "://" +:+ netloc parsed +:+ path parsed)
              +:+ (if decide (query parsed = "") then ""
                   else "?" +:+ query parsed)) as Hclean.
  { intros parsed. unfold clean_url_of.
    destruct (query parsed); simpl; [|done].
    by rewrite PyStrFacts.append_nil_r. }
  split_and!.
  - intros lib link page depth cb rs st Hrej%not_crawlable_rejected.
    unfold extract_link, collect_link. rewrite Hrej.
    rewrite not_crawlable_split in Hrej.
    apply orb_true_iff in Hrej as [-> | Hrej]; [done|].
    split; [done|]. destruct (negb _ || _); [done|]. by rewrite Hrej.
  - intros lib link page depth cb rs st absolute_url parsed
      Hacc%not_crawlable_accepted Hjoin Hparse clean_url.
    assert (resolve_href page (PyStr.strip (href link)) = Ok parsed) as Hres.
    { unfold resolve_href. by rewrite Hjoin. }
    unfold extract_link, collect_link. rewrite Hacc, Hres.
    rewrite not_crawlable_split in Hacc.
    apply orb_false_iff in Hacc as [-> ->].
    simpl. by rewrite Hclean.
  - intros absolute_url parsed Hparse.
    apply UrllibFacts.urlparse_lacks_hash in Hparse as (Hs & Hn & Hp & Hq).
    unfold clean_url_of.
    destruct (PyStr.nonempty (query parsed));
      rewrite !PyStrFacts.has_char_app, Hs, Hn, Hp, ?Hq; done.
  - vm_compute. reflexivity.
Qed.

(** ** A page of two links

    The page [https://shop.test/a] with [<a href="/b">B</a>] and
    [<a href="https://other.test/c">C</a>], on a manager for the base
    domain [shop.test]. *)
Example shop_page :
  let links := [anchor_among "/b" "B" 2 0;
                anchor_among "https://other.test/c" "C" 2 1] in
  let st := __init__ (Some "shop.test") [] in
  let internal_only (url : string) (depth : Z) :=
    match @is_internal cpython url st with
    | Ok v => truthy v
    | Raise _ => false
    end in
  (λ d, (LinkData.target_url d, LinkData.is_internal d, LinkData.anchor_text d,
         LinkData.placement d, LinkData.link_path d))
    <$> all_links (@collect_all_links cpython links "https://shop.test/a" [] st)
  = [("https://shop.test/b", PBool true, "B", "body", "//body/a[1]");
     ("https://other.test/c", PBool false, "C", "body", "//body/a[2]")]
  ∧ discovered_urls
      (@extract_links cpython links "https://shop.test/a" 1 internal_only st).2
    = [("https://shop.test/b", 1)].
Proof. vm_compute. split; reflexivity. Qed.

(** * Further properties of the code *)

(** ** The pending queue is first in, first out *)

Lemma step_conservation a st :
  is_reset_urls a = false →
  handed_out a st ++ discovered_urls (step a st)
  = discovered_urls st ++ appended a st.
Proof.
  intros Ha. rewrite step_queue.
  destruct a; try done; simpl.
  unfold get_next_url. by destruct (discovered_urls st).
Qed.

Lemma dequeued_enqueued acts st :
  no_reset acts →
  dequeued acts st ++ discovered_urls (run acts st)
  = discovered_urls st ++ enqueued acts st.
Proof.
  intros Hacts. revert st.
  induction Hacts as [|a acts Ha _ IH]; intros st; simpl.
  { by rewrite app_nil_r. }
  change (foldl _ (step a st) acts) with (run acts (step a st)).
  rewrite <- app_assoc, IH, !app_assoc. f_equal.
  by apply step_conservation.
Qed.

(** X1.  In an execution without reset nothing leaves the pending queue
    except through [get_next_url], and in the order of arrival: what was
    handed out, followed by what is still pending, is what was pending at
    the start followed by what was appended since. *)
Theorem queue_conservation (acts : list action) (st : LinkManager) :
  no_reset acts →
  dequeued acts st ++ discovered_urls (run acts st)
  = discovered_urls st ++ enqueued acts st.
Proof. apply dequeued_enqueued. Qed.

Lemma queue_conservation_witness :
  let acts := [AddUrl "https://a.test/1" 0; AddUrl "https://a.test/2" 0;
               GetNextUrl; MarkVisited "https://a.test/2";
               AddUrl "https://a.test/3" 1] in
  no_reset acts
  ∧ dequeued acts (__init__ None [])
    ++ discovered_urls (run acts (__init__ None []))
    = [("https://a.test/1", 0); ("https://a.test/2", 0); ("https://a.test/3", 1)].
Proof.
  intros acts.
  assert (no_reset acts) as Hacts by repeat constructor.
  split; [exact Hacts|].
  pose proof (queue_conservation acts (__init__ None []) Hacts) as H.
  vm_compute in H. vm_compute. exact H.
Defined.

(** X2.  From a new manager and without reset, [get_next_url] hands the
    entries out in the order in which they were appended, and never hands
    out two entries with the same URL. *)
Theorem handed_out_once (base : option string) (h : list (list string))
    (acts : list action) :
  no_reset acts →
  dequeued acts (__init__ base h) `prefix_of` enqueued acts (__init__ base h)
  ∧ NoDup (dequeued acts (__init__ base h)).*1.
Proof.
  intros Hacts.
  pose proof (dequeued_enqueued acts (__init__ base h) Hacts) as Hcons.
  simpl in Hcons.
  destruct (enqueued_fresh acts (__init__ base h) Hacts) as [Hnd _].
  rewrite <- Hcons in Hnd |- *. split.
  - by eexists.
  - rewrite fmap_app in Hnd. by apply NoDup_app in Hnd as [? _].
Qed.

Lemma handed_out_once_witness :
  let acts := [AddUrl "https://a.test/1" 0; GetNextUrl;
               AddUrl "https://a.test/1" 1; GetNextUrl] in
  no_reset acts ∧ NoDup (dequeued acts (__init__ None [])).*1.
Proof.
  intros acts.
  assert (no_reset acts) as Hacts by repeat constructor.
  split; [exact Hacts|].
  exact (proj2 (handed_out_once None [] acts Hacts)).
Defined.

(** ** The counts of [get_stats] *)

Lemma step_frontier_ok a st :
  (NoDup (discovered_urls st).*1
   ∧ ∀ e, e ∈ discovered_urls st → e.1 ∈ all_discovered_urls st) →
  NoDup (discovered_urls (step a st)).*1
  ∧ ∀ e, e ∈ discovered_urls (step a st) →
         e.1 ∈ all_discovered_urls (step a st).
Proof.
  intros [Hnd Hin].
  destruct (decide (is_reset_urls a = true)) as [Hr|Hr].
  { destruct a; try done. simpl. split; [constructor|].
    by intros e ?%elem_of_nil. }
  apply not_true_is_false in Hr.
  destruct (step_sets_mono a st Hr) as [Hd _].
  rewrite step_queue.
  assert (∀ pre q, discovered_urls st = pre ++ q →
                   NoDup (q ++ appended a st).*1
                   ∧ ∀ e, e ∈ q ++ appended a st →
                          e.1 ∈ all_discovered_urls (step a st)) as Hq.
  { intros pre q Hpre.
    assert (∀ e, e ∈ q → e ∈ discovered_urls st) as Hsub.
    { intros e He. rewrite Hpre. apply elem_of_app. by right. }
    split.
    - rewrite fmap_app. apply NoDup_app. split_and!.
      + rewrite Hpre, fmap_app in Hnd. by apply NoDup_app in Hnd as (_ & _ & ?).
      + intros u [e [-> He]]%list_elem_of_fmap [e' [Hu He']]%list_elem_of_fmap.
        apply appended_inv in He' as (_ & Hfresh & _).
        apply Hfresh. rewrite <- Hu. by apply Hin, Hsub.
      + destruct (appended a st) as [|e k] eqn:Happ; [constructor|].
        destruct (appended_inv a st e) as (Heq & _); [rewrite Happ; left|].
        assert (k = []) as -> by congruence. apply NoDup_singleton.
    - intros e [He|He]%elem_of_app.
      + by apply Hd, Hin, Hsub.
      + by apply appended_inv in He as (_ & _ & _ & ?). }
  destruct a; try done; try (by apply (Hq [])).
  destruct (discovered_urls st) as [|e q] eqn:Hqueue.
  - by apply (Hq []).
  - by apply (Hq [e]).
Qed.

(** X3.  In every state the manager reaches (resets included) the pending
    entries have pairwise different URLs, all of them in
    [all_discovered_urls]; so the count [pending] of [get_stats] never
    exceeds the count [discovered]. *)
Theorem pending_at_most_discovered (base : option string)
    (h : list (list string)) (acts : list action) :
  let st := run acts (__init__ base h) in
  NoDup (discovered_urls st).*1
  ∧ (∀ e, e ∈ discovered_urls st → e.1 ∈ all_discovered_urls st)
  ∧ (pending (get_stats st) ≤ discovered (get_stats st))%nat.
Proof.
  intros st.
  assert (∀ st0,
            (NoDup (discovered_urls st0).*1
             ∧ ∀ e, e ∈ discovered_urls st0 → e.1 ∈ all_discovered_urls st0) →
            NoDup (discovered_urls (run acts st0)).*1
            ∧ ∀ e, e ∈ discovered_urls (run acts st0) →
                   e.1 ∈ all_discovered_urls (run acts st0)) as Hrun.
  { induction acts as [|a acts IH]; intros st0 H0; [done|].
    apply IH, step_frontier_ok, H0. }
  destruct (Hrun (__init__ base h)) as [Hnd Hin].
  { split; [constructor|]. by intros e ?%elem_of_nil. }
  fold st in Hnd, Hin.
  split_and!; [done..|].
  simpl. rewrite <- (length_fmap fst).
  rewrite <- (size_list_to_set (C:=gset string)) by done.
  apply subseteq_size. intros u Hu%elem_of_list_to_set.
  apply list_elem_of_fmap in Hu as [e [-> He]]. by apply Hin.
Qed.

(** ** What [extract_links] enqueues *)

Section ExtractLinks.
Context {lib : UrlLib}.

Lemma extract_trace_shape links current_url depth cb :
  Forall (λ a, ∃ clean_url, a = Extract clean_url current_url depth cb)
         (extract_trace links current_url depth cb).
Proof.
  induction links as [|link links IH]; simpl; [constructor|].
  destruct (not_crawlable _); [done|].
  destruct (resolve_href _ _); [|constructor].
  constructor; [by eexists|done].
Qed.

Lemma extract_steps_enqueued acts current_url depth cb st :
  Forall (λ a, ∃ clean_url, a = Extract clean_url current_url depth cb) acts →
  no_reset acts
  ∧ dequeued acts st = []
  ∧ visited_urls (run acts st) = visited_urls st
  ∧ Forall (λ e, e.2 = depth ∧ cb e.1 depth = true ∧ e.1 ≠ current_url)
           (enqueued acts st).
Proof.
  intros Hacts. revert st.
  induction Hacts as [|a acts [c ->] _ IH]; intros st.
  { split_and!; constructor. }
  destruct (IH (step (Extract c current_url depth cb) st))
    as (Hnr & Hdeq & Hvis & Hall).
  split_and!.
  - by constructor.
  - done.
  - change (run (_ :: acts) st)
      with (run acts (step (Extract c current_url depth cb) st)).
    rewrite Hvis. simpl.
    destruct (track_source_frontier c current_url st) as (Hv & _ & _).
    unfold enqueue_if_new. case_decide; [destruct (cb _ _)|]; simpl; done.
  - simpl. apply Forall_app. split; [|done].
    rewrite appended_spec.
    case_decide as Hc; [|constructor].
    destruct (cb c depth) eqn:Hcb; [|constructor].
    constructor; [|constructor]. simpl. naive_solver.
Qed.

(** X4.  [extract_links] only adds to the end of the pending queue.  Every
    entry it adds carries the depth it was called with and a URL that the
    callback accepted at that depth, that is not the URL of the page
    itself, and that was neither visited nor discovered before the call;
    no two added entries carry the same URL, and [visited_urls] is left
    as it is.  This holds also when the method raises. *)
Theorem extract_links_enqueues_eligible (links : list Link)
    (current_url : string) (depth : Z) (cb : string → Z → bool)
    (st : LinkManager) :
  let st' := (extract_links links current_url depth cb st).2 in
  ∃ new,
    discovered_urls st' = discovered_urls st ++ new
    ∧ NoDup new.*1
    ∧ Forall (λ e, e.2 = depth ∧ cb e.1 depth = true ∧ e.1 ≠ current_url
                   ∧ (e.1 ∉ visited_urls st)
                   ∧ (e.1 ∉ all_discovered_urls st)) new
    ∧ visited_urls st' = visited_urls st.
Proof.
  intros st'. subst st'. rewrite extract_links_run.
  destruct (extract_steps_enqueued _ _ _ _ st
              (extract_trace_shape links current_url depth cb))
    as (Hnr & Hdeq & Hvis & Hall).
  pose proof (dequeued_enqueued _ st Hnr) as Hcons.
  rewrite Hdeq in Hcons. simpl in Hcons.
  destruct (enqueued_fresh _ st Hnr) as [Hnd Hfresh].
  eexists. split_and!; [exact Hcons|exact Hnd| |exact Hvis].
  apply Forall_forall. intros e He.
  rewrite Forall_forall in Hall.
  destruct (Hall e He) as (? & ? & ?). destruct (Hfresh e He). done.
Qed.

End ExtractLinks.

(** ** The source index *)

Section SourceIndexMore.
Context {lib : UrlLib}.

Lemma observe_elem srcs s : s ∈ observe srcs s.
Proof. unfold observe. case_decide; [done|]. apply elem_of_app. right. by left. Qed.

Lemma enqueue_sources clean_url current_url depth cb st u :
  sources_of (enqueue_if_new clean_url current_url depth cb st) u
  = sources_of st u.
Proof.
  destruct (enqueue_store clean_url current_url depth cb st) as [Hs Hh].
  unfold sources_of. by rewrite Hs, Hh.
Qed.

Lemma record_link_sources d st u : sources_of (record_link d st) u = sources_of st u.
Proof. unfold record_link. by case_decide. Qed.

(** X5.  A link whose href resolves is recorded in the source index
    whatever becomes of it afterwards: after the iteration of
    [extract_links] or of [collect_all_links] for the link, the page is
    among the sources of the clean URL, also when the callback rejects the
    URL, when it was visited or discovered before, or when the edge was
    already recorded. *)
Theorem source_recorded_regardless (link : Link) (page : string) (depth : Z)
    (cb : string → Z → bool) (crawl_results : list CrawlResult.t)
    (st : LinkManager) (parsed : ParseResult) :
  store_ok st →
  not_crawlable (PyStr.strip (href link)) = false →
  resolve_href page (PyStr.strip (href link)) = Ok parsed →
  page ∈ sources_of (extract_link link page depth cb st).2 (clean_url_of parsed)
  ∧ page ∈ sources_of (collect_link link page crawl_results st)
             (clean_url_of parsed).
Proof.
  intros Hok Hacc Hres.
  destruct (track_source_sources (clean_url_of parsed) page st Hok)
    as [_ Hsrc].
  specialize (Hsrc (clean_url_of parsed)). rewrite decide_True in Hsrc by done.
  split.
  - unfold extract_link. rewrite Hacc, Hres. simpl.
    rewrite enqueue_sources, Hsrc. apply observe_elem.
  - unfold collect_link. rewrite not_crawlable_split in Hacc.
    apply orb_false_iff in Hacc as [-> ->]. rewrite Hres.
    rewrite record_link_sources. simpl. rewrite Hsrc. apply observe_elem.
Qed.

(** X6.  Between resets the list of sources of a target only grows at its
    end: what [get_source_pages] returned before is a prefix of what it
    returns later. *)
Theorem sources_grow_at_end (acts : list action) (st : LinkManager)
    (url : string) :
  no_reset acts → store_ok st →
  sources_of st url `prefix_of` sources_of (run acts st) url.
Proof.
  intros Hacts Hok.
  destruct (run_sources acts st url Hacts Hok) as [_ ->].
  rewrite foldl_observe. by eexists.
Qed.

End SourceIndexMore.

Lemma source_recorded_regardless_witness :
  "https://a.test/" ∈
    sources_of (@extract_link cpython (anchor "/p" "P") "https://a.test/" 1
                  (λ _ _, false) visited_p).2 "https://a.test/p".
Proof.
  refine (proj1 (@source_recorded_regardless cpython (anchor "/p" "P")
                   "https://a.test/" 1 (λ _ _, false) [] visited_p
                   (mkParseResult "https" "a.test" "/p" "" "" "") _ _ _)).
  - intros u l Hu. vm_compute in Hu. discriminate.
  - vm_compute. reflexivity.
  - vm_compute. reflexivity.
Defined.

Lemma sources_grow_at_end_witness :
  let st := run [Track "https://a.test/t" "https://a.test/1"] (__init__ None []) in
  let acts := [Track "https://a.test/t" "https://a.test/2";
               Extract "https://a.test/t" "https://a.test/1" 0 (λ _ _, true)] in
  no_reset acts ∧ store_ok st
  ∧ sources_of st "https://a.test/t"
    `prefix_of` sources_of (run acts st) "https://a.test/t".
Proof.
  intros st acts.
  assert (no_reset acts) as Hacts by repeat constructor.
  assert (store_ok st) as Hok.
  { apply (run_sources [Track "https://a.test/t" "https://a.test/1"]
             (__init__ None []) "");
      [repeat constructor|apply init_store_ok]. }
  split_and!; [exact Hacts|exact Hok|].
  exact (sources_grow_at_end acts st "https://a.test/t" Hacts Hok).
Defined.

(** ** The link graph in sequential use *)

Section Sessions.
Context {lib : UrlLib}.

Lemma take_length n s : (String.length (PyStr.take n s) ≤ n)%nat.
Proof.
  revert s. induction n as [|n IH]; intros [|c s]; simpl; try lia.
  specialize (IH s). lia.
Qed.

Lemma detect_placement_range ancestors :
  detect_placement_from ancestors ∈ ["footer"; "navigation"; "body"].
Proof.
  induction ancestors as [|e up IH]; cbn [detect_placement_from];
    [set_solver|].
  repeat case_match; first [exact IH | set_solver].
Qed.

Lemma get_dom_path_shape link :
  _get_dom_path link = "" ∨ PyStr.startswith (_get_dom_path link) "//" = true.
Proof.
  unfold _get_dom_path.
  destruct (negb _); [by left|].
  destruct (dom_path_from _ _); [by left|right].
  unfold PyStr.startswith. simpl. by destruct (_ +:+ _).
Qed.

Lemma make_link_data_ok link source_url parsed crawl_results base :
  edge_ok base (make_link_data link source_url parsed crawl_results base).
Proof.
  unfold edge_ok, make_link_data.
  cbn [LinkData.anchor_text LinkData.is_internal LinkData.target_domain
       LinkData.placement LinkData.link_path].
  split_and!.
  - destruct (PyStr.nonempty _) eqn:Hne; [|done]. by apply nonempty_true.
  - destruct (PyStr.nonempty _); [apply take_length|simpl; lia].
  - done.
  - apply detect_placement_range.
  - apply get_dom_path_shape.
Qed.

Lemma step_sources_mono a st s u :
  store_ok st → is_reset_urls a = false →
  s ∈ sources_of st u → s ∈ sources_of (step a st) u.
Proof.
  intros Hok Ha Hs. destruct (step_sources a st Hok) as [_ ->].
  assert (∀ c src, s ∈ (if decide (u = c)
                        then observe (sources_of st c) src
                        else sources_of st u)) as Hobs.
  { intros c src. case_decide; [subst|done].
    unfold observe. case_decide; [done|]. apply elem_of_app. by left. }
  destruct a; try done; apply Hobs.
Qed.

Lemma step_session_inv base a st :
  session_inv base st →
  is_reset_urls a = false →
  (∀ d, a = RecordLink d →
        LinkData.source_url d ∈ sources_of st (LinkData.target_url d)
        ∧ edge_ok base d) →
  session_inv base (step a st).
Proof.
  intros (Hok & Hidx & Hbase & Hedges) Ha Hrec.
  destruct (step_sources a st Hok) as [Hok' _].
  assert (∀ d, d ∈ all_links st →
               LinkData.source_url d
               ∈ sources_of (step a st) (LinkData.target_url d)) as Hold.
  { intros d Hd. by apply step_sources_mono, Hidx. }
  assert (all_links (step a st) = all_links st →
          base_domain (step a st) = base_domain st →
          session_inv base (step a st)) as Hsame.
  { intros Hl Hb. split_and!; [done| |congruence|by rewrite Hl].
    intros d. rewrite Hl. apply Hold. }
  destruct a as [c cur d cb|c s|ld|u' d|u'| |rs|u'| |].
  - apply Hsame; cbn [step].
    + unfold enqueue_if_new.
      destruct (track_source_links c cur st) as [Hl _].
      case_decide; [destruct (cb _ _)|]; done.
    + rewrite <- (track_source_base_domain c cur st).
      unfold enqueue_if_new. case_decide; [destruct (cb _ _)|]; done.
  - apply Hsame; cbn [step].
    + by destruct (track_source_links c s st).
    + by rewrite track_source_base_domain.
  - destruct (Hrec ld eq_refl) as [Hsrc Hldok].
    cbn [step] in *. unfold record_link in *.
    case_decide; [|by apply Hsame].
    split_and!; [done| |done|].
    + intros d' [Hd'| ->%list_elem_of_singleton]%elem_of_app.
      * by apply Hold.
      * done.
    + simpl. apply Forall_app. split; [done|by constructor].
  - apply Hsame; cbn [step]; unfold add_url; by case_decide.
  - by apply Hsame.
  - apply Hsame; cbn [step]; unfold get_next_url;
      by destruct (discovered_urls st).
  - split_and!; [done| |done|].
    + intros d' [d0 [-> Hd0]]%list_elem_of_fmap.
      specialize (Hold d0 Hd0). cbn [step] in *.
      unfold update_link.
      by destruct (status_lookup rs !! LinkData.target_url d0).
    + cbn [step]. simpl. apply Forall_fmap.
      eapply Forall_impl; [exact Hedges|].
      intros d0 Hd0. unfold compose, update_link.
      destruct (status_lookup rs !! LinkData.target_url d0); exact Hd0.
  - by apply Hsame.
  - done.
  - split_and!; [done|by intros ? ?%elem_of_nil|done|constructor].
Qed.

Lemma extract_steps_session_inv base acts current_url depth cb st :
  Forall (λ a, ∃ clean_url, a = Extract clean_url current_url depth cb) acts →
  session_inv base st → session_inv base (run acts st).
Proof.
  intros Hacts. revert st.
  induction Hacts as [|a acts [c ->] _ IH]; intros st Hinv; [done|].
  apply IH, step_session_inv; [done..|]. by intros d.
Qed.

Lemma collect_link_session_inv base link source_url crawl_results st :
  session_inv base st →
  session_inv base (collect_link link source_url crawl_results st).
Proof.
  intros Hinv. unfold collect_link.
  destruct (_ || _); [done|]. destruct (_ || _); [done|].
  destruct (resolve_href _ _) as [parsed|e]; [|done].
  set (ld := make_link_data link source_url parsed crawl_results
               (base_domain st)).
  assert (session_inv base (track_source (LinkData.target_url ld) source_url st))
    as Hinv'.
  { apply (step_session_inv base (Track _ _)); [done..|]. by intros d. }
  apply (step_session_inv base (RecordLink ld)); [done..|].
  intros d [= <-]. split.
  - destruct Hinv as (Hok & _).
    destruct (track_source_sources (LinkData.target_url ld) source_url st Hok)
      as [_ Hsrc].
    rewrite Hsrc, decide_True by done. apply observe_elem.
  - destruct Hinv as (_ & _ & <- & _). apply make_link_data_ok.
Qed.

Lemma exec_session_inv base c st :
  session_inv base st → session_inv base (exec c st).
Proof.
  intros Hinv.
  destruct c as [links cur d cb|links src rs|u d|u| |rs|u|]; cbn [exec].
  - rewrite extract_links_run.
    eapply extract_steps_session_inv; [apply extract_trace_shape|done].
  - unfold collect_all_links. revert st Hinv.
    induction links as [|link links IH]; intros st Hinv; [done|].
    simpl. by apply IH, collect_link_session_inv.
  - apply (step_session_inv base (AddUrl u d)); [done..|]. by intros ?.
  - apply (step_session_inv base (MarkVisited u)); [done..|]. by intros ?.
  - apply (step_session_inv base GetNextUrl); [done..|]. by intros ?.
  - apply (step_session_inv base (UpdateLinkStatuses rs)); [done..|].
    by intros ?.
  - apply (step_session_inv base (GetSourcePages u)); [done..|]. by intros ?.
  - destruct Hinv as (_ & _ & Hbase & _).
    split_and!; simpl; [by intros ? ? ?|by intros ? ?%elem_of_nil|done|
                         constructor].
Qed.

Lemma session_session_inv base h calls :
  session_inv base (session calls (__init__ base h)).
Proof.
  assert (session_inv base (__init__ base h)) as Hinit.
  { split_and!; [apply init_store_ok|by intros ? ?%elem_of_nil|done|
                 constructor]. }
  revert Hinit. generalize (__init__ base h).
  induction calls as [|c calls IH]; intros st Hinv; [done|].
  by apply IH, exec_session_inv.
Qed.

(** X7.  When the public methods are called one after the other on a new
    manager (in any order, [reset] included), the source index agrees
    with the edge list: the source page of every recorded edge is among
    the sources of the edge's target. *)
Theorem edges_are_indexed (base : option string) (h : list (list string))
    (calls : list call) :
  edges_indexed (session calls (__init__ base h)).
Proof. apply (session_session_inv base h calls). Qed.

(** X8.  Under the same calls every recorded edge has an anchor text of 1
    to 100 characters, an [is_internal] value that is the classification
    of its [target_domain] against the manager's base domain, a placement
    that is one of footer, navigation and body, and a link path that is
    empty or starts with two slashes. *)
Theorem edges_are_well_formed (base : option string) (h : list (list string))
    (calls : list call) :
  Forall (edge_ok base) (all_links (session calls (__init__ base h))).
Proof. apply (session_session_inv base h calls). Qed.

End Sessions.

(** ** Statuses *)

Section Statuses.

Lemma status_lookup_app rs1 rs2 u :
  status_lookup (rs1 ++ rs2) !! u
  = match status_lookup rs2 !! u with
    | Some status => Some status
    | None => status_lookup rs1 !! u
    end.
Proof.
  induction rs2 as [|r rs2 IH] using rev_ind.
  { by rewrite app_nil_r. }
  rewrite app_assoc, !status_lookup_snoc.
  destruct (decide (CrawlResult.url r = u)) as [<-|Hne].
  - by rewrite !lookup_insert_eq.
  - by rewrite !lookup_insert_ne.
Qed.

Lemma update_link_twice l1 l2 l12 d :
  (l12 !! LinkData.target_url d
   = match l2 !! LinkData.target_url d with
     | Some status => Some status
     | None => l1 !! LinkData.target_url d
     end) →
  update_link l2 (update_link l1 d) = update_link l12 d.
Proof.
  intros H12. unfold update_link at 2 3. rewrite H12.
  destruct (l1 !! LinkData.target_url d) as [s1|] eqn:H1;
    unfold update_link; simpl;
    by destruct (l2 !! LinkData.target_url d).
Qed.

(** X9.  Backfilling statuses in two batches is backfilling once with the
    two lists of results one after the other (a later result for a URL
    replaces an earlier one), and backfilling the same results again
    changes nothing. *)
Theorem update_link_statuses_batches (rs1 rs2 : list CrawlResult.t)
    (st : LinkManager) :
  update_link_statuses rs2 (update_link_statuses rs1 st)
  = update_link_statuses (rs1 ++ rs2) st
  ∧ update_link_statuses rs1 (update_link_statuses rs1 st)
    = update_link_statuses rs1 st.
Proof.
  unfold update_link_statuses, set_links. simpl. split; f_equal.
  - rewrite <- list_fmap_compose. apply list_fmap_ext. intros i d _. simpl.
    apply update_link_twice, status_lookup_app.
  - rewrite <- list_fmap_compose. apply list_fmap_ext. intros i d _. simpl.
    apply update_link_twice. by destruct (status_lookup rs1 !! _).
Qed.

Lemma filter_url_unique rs u :
  NoDup (CrawlResult.url <$> rs) →
  (length (filter (λ r, CrawlResult.url r = u) rs) ≤ 1)%nat.
Proof.
  induction rs as [|r rs IH]; simpl; [lia|].
  intros [Hr Hnd]%NoDup_cons. rewrite filter_cons.
  case_decide as Hu; [|by apply IH].
  assert (filter (λ r, CrawlResult.url r = u) rs = []) as ->; [|simpl; lia].
  destruct (filter _ rs) as [|r' k] eqn:Hf; [done|].
  assert (r' ∈ filter (λ r, CrawlResult.url r = u) rs) as Hin
    by (rewrite Hf; left).
  apply list_elem_of_filter in Hin as [Hr' Hin].
  exfalso. apply Hr. rewrite Hu, <- Hr'. by apply list_elem_of_fmap_2.
Qed.

(** X10.  When an edge is recorded, its status is that of the first result
    for its target ([None] when there is none), while
    [update_link_statuses] uses the last one; the two agree when no two
    results carry the same URL. *)
Theorem recorded_status_is_first (crawl_results : list CrawlResult.t)
    (url : string) :
  find_status url crawl_results
  = CrawlResult.status_code
      <$> head (filter (λ r, CrawlResult.url r = url) crawl_results)
  ∧ status_lookup crawl_results !! url
    = CrawlResult.status_code
        <$> last (filter (λ r, CrawlResult.url r = url) crawl_results)
  ∧ (NoDup (CrawlResult.url <$> crawl_results) →
     find_status url crawl_results = status_lookup crawl_results !! url).
Proof.
  assert (find_status url crawl_results
          = CrawlResult.status_code
              <$> head (filter (λ r, CrawlResult.url r = url) crawl_results))
    as Hfirst.
  { induction crawl_results as [|r rs IH]; simpl; [done|].
    rewrite filter_cons. by case_decide. }
  split_and!; [done|apply status_lookup_last|].
  intros Hnd. rewrite Hfirst, status_lookup_last. unfold last_status.
  pose proof (filter_url_unique crawl_results url Hnd) as Hlen.
  destruct (filter _ crawl_results) as [|r [|r' k]]; simpl in *; [done..|lia].
Qed.

End Statuses.

(** ** Placement and DOM path *)

Section Placement.

Lemma plain_skipped e up :
  plain e → detect_placement_from (e :: up) = detect_placement_from up.
Proof.
  intros (Hclass & Hid & Hname & Htag).
  cbn [detect_placement_from]. rewrite Hclass.
  assert (default "" (tag_id e) = "") as -> by (by destruct Hid as [-> | ->]).
  apply nonempty_true in Hname. rewrite Hname. cbn [negb].
  rewrite decide_False by set_solver.
  rewrite bool_decide_false by set_solver.
  reflexivity.
Qed.

(** X11.  Ancestors without class and id whose tag is not footer, nav or
    header do not influence the placement: it is decided by the first
    ancestor above them, footer for a [<footer>] element, navigation for a
    [<nav>] or [<header>] element without class and id, and it is body
    when there is no ancestor above them. *)
Theorem placement_decided_by_first_marked (inner outer : list Element) :
  Forall plain inner →
  detect_placement_from (inner ++ outer) = detect_placement_from outer
  ∧ detect_placement_from inner = "body"
  ∧ (∀ e, tag_name e = "footer" →
          detect_placement_from (inner ++ e :: outer) = "footer")
  ∧ (∀ e, tag_name e ∈ ["nav"; "header"] → tag_class e = [] →
          tag_id e = None →
          detect_placement_from (inner ++ e :: outer) = "navigation").
Proof.
  intros Hinner.
  assert (∀ l, detect_placement_from (inner ++ l) = detect_placement_from l)
    as Hskip.
  { intros l. induction Hinner as [|e inner He _ IH]; [done|].
    rewrite <- app_comm_cons. by rewrite plain_skipped. }
  split_and!.
  - apply Hskip.
  - rewrite <- (app_nil_r inner). by rewrite Hskip.
  - intros e He. rewrite Hskip. cbn [detect_placement_from]. rewrite He.
    reflexivity.
  - intros e He Hclass Hid. rewrite Hskip. cbn [detect_placement_from].
    rewrite Hclass, Hid.
    apply elem_of_cons in He as [->| ->%list_elem_of_singleton]; reflexivity.
Qed.

Lemma placement_decided_by_first_marked_witness :
  let div := mkElement "div" None [] 3 (Some 1%nat) in
  let footer := mkElement "footer" None ["site"] 1 (Some 0%nat) in
  let nav := mkElement "nav" None [] 1 (Some 0%nat) in
  Forall plain [div; div]
  ∧ detect_placement_from ([div; div] ++ footer :: [nav]) = "footer".
Proof.
  intros div footer nav.
  assert (Forall plain [div; div]) as Hplain.
  { repeat constructor; try done; set_solver. }
  split; [exact Hplain|].
  exact (proj1 (proj2 (proj2
           (placement_decided_by_first_marked [div; div] [nav] Hplain)))
           footer eq_refl).
Defined.

Lemma dom_path_acc chain acc : acc ≠ [] → dom_path_from chain acc ≠ [].
Proof.
  revert acc. induction chain as [|e up IH]; intros acc Hacc; [done|].
  cbn [dom_path_from].
  destruct (negb _); [done|]. destruct (decide _); [done|].
  cbv zeta.
  destruct (decide _); [done|]. by apply IH.
Qed.

(** X12.  [_get_dom_path] returns the empty string exactly for an element
    without a name and for an [<html>] element; for every other element
    the path starts with two slashes. *)
Theorem dom_path_empty_or_rooted (link : Link) :
  (_get_dom_path link = ""
   ↔ tag_name (element link) = ""
     ∨ PyStr.lower (tag_name (element link)) = "html")
  ∧ (_get_dom_path link ≠ "" →
     PyStr.startswith (_get_dom_path link) "//" = true).
Proof.
  split; [|by destruct (get_dom_path_shape link)].
  unfold _get_dom_path.
  destruct (PyStr.nonempty (tag_name (element link))) eqn:Hname; simpl.
  - apply nonempty_true in Hname as Hname'.
    rewrite Hname. simpl.
    destruct (decide (PyStr.lower (tag_name (element link)) = "html"))
      as [Hhtml|Hhtml].
    + naive_solver.
    + cbv zeta.
      match goal with |- context [dom_path_from ?up ?acc] =>
        pose proof (dom_path_acc up acc) as Hacc
      end.
      destruct (decide _).
      * split; [done|]. naive_solver.
      * destruct (dom_path_from _ _); [by destruct Hacc|].
        split; [done|]. naive_solver.
  - apply nonempty_false in Hname. naive_solver.
Qed.

(** X13.  The walk of [_get_dom_path] ends at the first [<body>] or
    [<html>] element (or element without a name): what lies above it does
    not influence the path, beyond whether there is anything above. *)
Theorem dom_path_ends_at_body (inner : list Element) (e : Element)
    (above1 above2 : list Element) (path_parts : list string) :
  stops_path e →
  (above1 = [] ↔ above2 = []) →
  dom_path_from (inner ++ e :: above1) path_parts
  = dom_path_from (inner ++ e :: above2) path_parts.
Proof.
  intros Hstop Habove. revert path_parts.
  induction inner as [|x inner IH]; intros path_parts.
  - simpl. destruct Hstop as [Hname|[Hhtml|Hbody]].
    + by rewrite Hname.
    + destruct (negb _); [done|]. by rewrite !decide_True.
    + destruct (negb _); [done|]. rewrite !Hbody. simpl.
      destruct above1, above2; try done; naive_solver.
  - rewrite <- !app_comm_cons. cbn [dom_path_from].
    destruct (negb _); [done|]. destruct (decide _); [done|].
    cbv zeta. rewrite !IH.
    by destruct inner.
Qed.

Lemma dom_path_ends_at_body_witness :
  let a := mkElement "a" None [] 2 (Some 1%nat) in
  let div := mkElement "div" (Some "main") [] 1 (Some 0%nat) in
  let body := mkElement "body" None [] 1 (Some 0%nat) in
  let html := mkElement "html" None [] 1 (Some 0%nat) in
  stops_path body
  ∧ dom_path_from ([a; div] ++ body :: [html]) []
    = ["body"; "div[@id='main']"; "a[2]"].
Proof.
  intros a div body html.
  assert (stops_path body) as Hstop by (right; right; reflexivity).
  split; [exact Hstop|].
  rewrite (dom_path_ends_at_body [a; div] body [html]
             [mkElement "section" None [] 1 None] [] Hstop); [reflexivity|].
  split; discriminate.
Defined.

End Placement.

(** ** [robots.txt] *)

Module RobotsFacts.
Import PyStr PyStrFacts.

Lemma prefix_cons a p b s :
  String.prefix (String a p) (String b s) = true
  ↔ a = b ∧ String.prefix p s = true.
Proof.
  simpl. destruct (ascii_dec a b) as [->|Hne]; [naive_solver|].
  split; [done|]. by intros [? _].
Qed.

Lemma char_lower_colon c : char_lower c = ":"%char → c = ":"%char.
Proof.
  destruct c as [[] [] [] [] [] [] [] []]; vm_compute; congruence.
Qed.

Lemma char_lower_letter c x :
  x = char_lower c → x ≠ ":"%char → ":"%char ≠ c.
Proof. intros -> Hx <-. by apply Hx. Qed.

(** On a line that starts with the directive, whatever the case of its
    letters, the first colon is the one of the directive. *)
Lemma sitemap_directive_split line :
  startswith (lower line) "sitemap:" = true →
  split1 ":" line = Some (take 7 line, drop 8 line).
Proof.
  unfold startswith. intros H.
  destruct line as [|c1 line]; [done|];
    cbn [lower] in H; apply prefix_cons in H as [H1 H].
  destruct line as [|c2 line]; [done|];
    cbn [lower] in H; apply prefix_cons in H as [H2 H].
  destruct line as [|c3 line]; [done|];
    cbn [lower] in H; apply prefix_cons in H as [H3 H].
  destruct line as [|c4 line]; [done|];
    cbn [lower] in H; apply prefix_cons in H as [H4 H].
  destruct line as [|c5 line]; [done|];
    cbn [lower] in H; apply prefix_cons in H as [H5 H].
  destruct line as [|c6 line]; [done|];
    cbn [lower] in H; apply prefix_cons in H as [H6 H].
  destruct line as [|c7 line]; [done|];
    cbn [lower] in H; apply prefix_cons in H as [H7 H].
  destruct line as [|c8 line]; [done|];
    cbn [lower] in H; apply prefix_cons in H as [H8 _].
  symmetry in H8. apply char_lower_colon in H8 as ->.
  cbn [split1 take drop].
  rewrite !decide_False by (eapply char_lower_letter; [eassumption|done]).
  by rewrite decide_True.
Qed.

End RobotsFacts.

Section Robots.
Context {lib : UrlLib}.
Variable session_get : string → result Sitemap.Response.
Variable js_renderer : option (string → result (option Sitemap.JsResult)).
Variable gzip_decompress : string → result string.
Variable fromstring : string → result Sitemap.Document.

Lemma robots_lines_declared lines sitemaps :
  Discovery.robots_lines lines sitemaps
  = sitemaps ++ omap declared_sitemap lines.
Proof.
  revert sitemaps. induction lines as [|line lines IH]; intros sitemaps.
  { by rewrite app_nil_r. }
  cbn [Discovery.robots_lines omap list_omap]. unfold declared_sitemap at 1.
  cbv zeta.
  destruct (PyStr.startswith _ _) eqn:Hdir.
  - rewrite (RobotsFacts.sitemap_directive_split _ Hdir).
    by rewrite IH, <- app_assoc.
  - apply IH.
Qed.

(** X14.  [_get_sitemaps_from_robots] returns, in the order of the lines
    of [robots.txt], one entry for every line that starts, after
    stripping and in any letter case, with [sitemap:]: the text after the
    eight characters of the directive, stripped, so that the colons of the
    URL stay in it.  No line ends the scan early.  It returns the empty
    list when the request raises or the status is not 200. *)
Theorem robots_sitemaps_declared (base_domain : string) :
  Discovery._get_sitemaps_from_robots session_get base_domain
  = match session_get (base_domain +:+ "/robots.txt") with
    | Ok response =>
        if decide (Sitemap.status_code response = 200)
        then omap declared_sitemap
               (PyStr.split "010" (Sitemap.content response))
        else []
    | Raise _ => []
    end.
Proof.
  unfold Discovery._get_sitemaps_from_robots.
  destruct (session_get _) as [response|e]; [|done].
  case_decide; [|done]. by rewrite robots_lines_declared.
Qed.

Abbreviation run_ := (Sitemap.parse_sitemap_run session_get js_renderer
                        gzip_decompress fromstring).
Abbreviation load_ := (Sitemap.load session_get js_renderer gzip_decompress
                         fromstring).



Lemma concat_length_bound (rs : list Sitemap.Run) (m : nat) :
  Forall (λ r, length (Sitemap.parsing r) ≤ m)%nat rs →
  (length (concat (Sitemap.parsing <$> rs)) ≤ length rs * m)%nat.
Proof.
  induction 1 as [|r rs Hr _ IH]; [simpl; lia|].
  rewrite fmap_cons. cbn [concat length]. rewrite length_app. lia.
Qed.

Lemma run_fetch_bound (b n : nat) url depth max_depth :
  (∀ url root, load_ url = Ok (Some root) →
               length (Sitemap.loc_texts (Sitemap.sitemaps root)) ≤ b)%nat →
  n = Z.to_nat (max_depth - depth + 1) →
  (length (Sitemap.parsing (run_ url depth max_depth)) ≤ geometric b n)%nat.
Proof.
  intros Hb. revert url depth.
  induction n as [|n IH]; intros url depth Hn.
  - rewrite SitemapFacts.run_past_limit by lia. done.
  - rewrite SitemapFacts.run_within_limit by lia.
    destruct (load_ url) as [[root|]|e] eqn:Hl; simpl; try lia.
    apply le_n_S.
    etrans; [apply (concat_length_bound _ (geometric b n))|].
    + apply Forall_fmap, Forall_forall. intros nested _. simpl.
      apply IH. lia.
    + rewrite length_fmap. specialize (Hb url root Hl).
      apply Nat.mul_le_mono_r. done.
Qed.

(** X16.  The depth limit bounds the work: when no sitemap index lists
    more than [b] nested sitemaps, a call at depth [depth] sets out to
    fetch at most [1 + b + ... + b^(max_depth - depth)] sitemaps. *)
Theorem parse_sitemap_fetch_bound (b : nat) (url : string)
    (depth max_depth : Z) :
  (∀ url root, load_ url = Ok (Some root) →
               length (Sitemap.loc_texts (Sitemap.sitemaps root)) ≤ b)%nat →
  (length (Sitemap.parsing (run_ url depth max_depth))
   ≤ geometric b (Z.to_nat (max_depth - depth + 1)))%nat.
Proof. intros Hb. by eapply run_fetch_bound. Qed.

End Robots.

Lemma parse_sitemap_fetch_bound_witness :
  (length (Sitemap.parsing
             (Sitemap.parse_sitemap_run cyclic_session None (λ c, Ok c)
                cyclic_fromstring "https://a.test/sitemap.xml" 1 10))
   ≤ geometric 1 (Z.to_nat (10 - 1 + 1)))%nat.
Proof.
  apply (parse_sitemap_fetch_bound cyclic_session None (λ c, Ok c)
           cyclic_fromstring 1 "https://a.test/sitemap.xml" 1 10).
  intros url root Hload. unfold Sitemap.load, Sitemap.fetch in Hload.
  destruct (Sitemap.plain_fetch cyclic_session url) as [[content|]|e];
    simpl in Hload; [|done..].
  injection Hload as <-. simpl. lia.
Defined.

Section Renderer.
Variable session_get : string → result Sitemap.Response.
Variable render_url : string → result (option Sitemap.JsResult).
Variable gzip_decompress : string → result string.
Variable fromstring : string → result Sitemap.Document.

Lemma run_renderer_unused (n : nat) url depth max_depth :
  (∀ url js_result, render_url url = Ok (Some js_result) →
                    Sitemap.js_status_code js_result ≠ Some 200) →
  n = Z.to_nat (max_depth - depth + 1) →
  Sitemap.parse_sitemap_run session_get (Some render_url) gzip_decompress
    fromstring url depth max_depth
  = Sitemap.parse_sitemap_run session_get None gzip_decompress fromstring
      url depth max_depth.
Proof.
  intros Hjs.
  assert (∀ url, Sitemap.load session_get (Some render_url) gzip_decompress
                   fromstring url
                 = Sitemap.load session_get None gzip_decompress fromstring
                     url) as Hload.
  { intros u. unfold Sitemap.load, Sitemap.fetch.
    destruct (render_url u) as [[js_result|]|e] eqn:Hr; try done.
    rewrite decide_False; [done|]. by eapply Hjs. }
  revert url depth. induction n as [|n IH]; intros url depth Hn.
  - by rewrite !SitemapFacts.run_past_limit by lia.
  - rewrite !SitemapFacts.run_within_limit by lia. rewrite Hload.
    destruct (Sitemap.load _ None _ _ url) as [[root|]|e]; try done.
    simpl. f_equal.
    + f_equal. f_equal. rewrite <- !list_fmap_compose.
      apply list_fmap_ext. intros i nested _. simpl. f_equal. apply IH. lia.
    + f_equal. f_equal. rewrite <- !list_fmap_compose.
      apply list_fmap_ext. intros i nested _. simpl. f_equal. apply IH. lia.
Qed.

(** X17.  A JavaScript renderer that never delivers a page with status 200
    (it raises, returns nothing, or reports another status) makes no
    difference: [_parse_sitemap] fetches every sitemap through the
    session and returns what it returns without a renderer. *)
Theorem renderer_without_200_unused (url : string) (depth max_depth : Z) :
  (∀ url js_result, render_url url = Ok (Some js_result) →
                    Sitemap.js_status_code js_result ≠ Some 200) →
  Sitemap.parse_sitemap_run session_get (Some render_url) gzip_decompress
    fromstring url depth max_depth
  = Sitemap.parse_sitemap_run session_get None gzip_decompress fromstring
      url depth max_depth.
Proof. intros Hjs. by eapply run_renderer_unused. Qed.

End Renderer.

Lemma renderer_without_200_unused_witness :
  Sitemap.parse_sitemap_run cyclic_session
    (Some (λ _, Ok (Some (Sitemap.mkJsResult (Some 403) "blocked"))))
    (λ c, Ok c) cyclic_fromstring "https://a.test/sitemap.xml" 1 10
  = Sitemap.parse_sitemap_run cyclic_session None (λ c, Ok c)
      cyclic_fromstring "https://a.test/sitemap.xml" 1 10.
Proof.
  apply (renderer_without_200_unused cyclic_session
           (λ _, Ok (Some (Sitemap.mkJsResult (Some 403) "blocked")))
           (λ c, Ok c) cyclic_fromstring "https://a.test/sitemap.xml" 1 10).
  intros url js_result [= <-]. simpl. discriminate.
Defined.

(** ** The two halves of the state *)

Section Frames.
Context {lib : UrlLib}.

Lemma record_link_frontier d st :
  visited_urls (record_link d st) = visited_urls st
  ∧ discovered_urls (record_link d st) = discovered_urls st
  ∧ all_discovered_urls (record_link d st) = all_discovered_urls st.
Proof. unfold record_link. by case_decide. Qed.

Lemma collect_link_frontier link source_url crawl_results st :
  visited_urls (collect_link link source_url crawl_results st) = visited_urls st
  ∧ discovered_urls (collect_link link source_url crawl_results st)
    = discovered_urls st
  ∧ all_discovered_urls (collect_link link source_url crawl_results st)
    = all_discovered_urls st.
Proof.
  unfold collect_link.
  destruct (_ || _); [done|]. destruct (_ || _); [done|].
  destruct (resolve_href _ _) as [parsed|e]; [|done].
  destruct (record_link_frontier
              (make_link_data link source_url parsed crawl_results
                 (base_domain st))
              (track_source
                 (LinkData.target_url
                    (make_link_data link source_url parsed crawl_results
                       (base_domain st))) source_url st))
    as (-> & -> & ->).
  apply track_source_frontier.
Qed.

Lemma extract_link_links link current_url depth cb st :
  all_links (extract_link link current_url depth cb st).2 = all_links st
  ∧ links_set (extract_link link current_url depth cb st).2 = links_set st.
Proof.
  unfold extract_link.
  destruct (not_crawlable _); [done|].
  destruct (resolve_href _ _) as [parsed|e]; [|done]. simpl.
  destruct (track_source_links (clean_url_of parsed) current_url st)
    as [Hl Hs].
  unfold enqueue_if_new. case_decide; [destruct (cb _ _)|]; done.
Qed.

(** X18.  The two page methods work on separate parts of the manager:
    [collect_all_links] changes nothing of the frontier ([visited_urls],
    the pending queue, [all_discovered_urls]), and [extract_links] changes
    nothing of the link graph ([all_links], [links_set]), whether it
    returns or raises. *)
Theorem page_methods_frames (links : list Link) (page : string) (depth : Z)
    (cb : string → Z → bool) (crawl_results : list CrawlResult.t)
    (st : LinkManager) :
  (visited_urls (collect_all_links links page crawl_results st)
   = visited_urls st
   ∧ discovered_urls (collect_all_links links page crawl_results st)
     = discovered_urls st
   ∧ all_discovered_urls (collect_all_links links page crawl_results st)
     = all_discovered_urls st)
  ∧ (all_links (extract_links links page depth cb st).2 = all_links st
     ∧ links_set (extract_links links page depth cb st).2 = links_set st).
Proof.
  split.
  - unfold collect_all_links. revert st.
    induction links as [|link links IH]; intros st; [done|]. simpl.
    destruct (IH (collect_link link page crawl_results st)) as (-> & -> & ->).
    apply collect_link_frontier.
  - revert st. induction links as [|link links IH]; intros st; [done|].
    simpl.
    pose proof (extract_link_links link page depth cb st) as [Hl Hs].
    destruct (extract_link link page depth cb st) as [[[]|e] st'];
      simpl in *; [|done].
    destruct (IH st') as [-> ->]. done.
Qed.

End Frames.

(** ** The counts of [get_stats], once more *)

Lemma step_discovered a st :
  is_reset_urls a = false →
  all_discovered_urls (step a st)
  = all_discovered_urls st ∪ list_to_set (appended a st).*1.
Proof.
  intros Ha. rewrite appended_spec.
  destruct a as [c cur d cb|c s|ld|u' d|u'| |rs|u'| |]; cbn [step].
  - destruct (track_source_frontier c cur st) as (Hv & Hq & Hd).
    unfold enqueue_if_new. rewrite Hv, Hd.
    case_decide; [destruct (cb c d)|]; simpl; rewrite ?Hd; set_solver.
  - destruct (track_source_frontier c s st) as (_ & _ & ->). set_solver.
  - unfold record_link. case_decide; simpl; set_solver.
  - unfold add_url. case_decide; simpl; set_solver.
  - simpl. set_solver.
  - unfold get_next_url. destruct (discovered_urls st); simpl; set_solver.
  - simpl. set_solver.
  - simpl. set_solver.
  - done.
  - simpl. set_solver.
Qed.

Lemma run_discovered acts st :
  no_reset acts →
  all_discovered_urls (run acts st)
  = all_discovered_urls st ∪ list_to_set (enqueued acts st).*1.
Proof.
  intros Hacts. revert st.
  induction Hacts as [|a acts Ha _ IH]; intros st.
  { simpl. set_solver. }
  change (run (a :: acts) st) with (run acts (step a st)).
  cbn [enqueued].
  rewrite IH, step_discovered, fmap_app, list_to_set_app_L by done.
  set_solver.
Qed.

(** X19.  From a new manager and without reset, [get_stats] counts every
    admitted URL once: [discovered] is the number of entries ever
    appended to the queue, and it is [pending] plus the number of entries
    that [get_next_url] has handed out. *)
Theorem stats_account (base : option string) (h : list (list string))
    (acts : list action) :
  no_reset acts →
  let st := run acts (__init__ base h) in
  discovered (get_stats st) = length (enqueued acts (__init__ base h))
  ∧ discovered (get_stats st)
    = (pending (get_stats st) + length (dequeued acts (__init__ base h)))%nat.
Proof.
  intros Hacts st.
  assert (discovered (get_stats st) = length (enqueued acts (__init__ base h)))
    as Hd.
  { subst st. simpl. rewrite run_discovered by done. simpl.
    rewrite (left_id_L (∅ : gset string) (∪)).
    destruct (enqueued_fresh acts (__init__ base h) Hacts) as [Hnd _].
    rewrite size_list_to_set by done. by rewrite length_fmap. }
  split; [done|]. rewrite Hd.
  pose proof (dequeued_enqueued acts (__init__ base h) Hacts) as Hcons.
  simpl in Hcons. rewrite <- Hcons, length_app. subst st. simpl. lia.
Qed.

Lemma stats_account_witness :
  let acts := [AddUrl "https://a.test/1" 0; AddUrl "https://a.test/2" 0;
               GetNextUrl; AddUrl "https://a.test/1" 1] in
  no_reset acts
  ∧ discovered (get_stats (run acts (__init__ None []))) = 2%nat.
Proof.
  intros acts.
  assert (no_reset acts) as Hacts by repeat constructor.
  split; [exact Hacts|].
  exact (proj1 (stats_account None [] acts Hacts)).
Defined.
